(** * MachineHealthCheck controller (controllers/machinehealthcheck_controller.go)

    A shallow embedding of the MachineHealthCheck reconciler: its data
    model, the reconciliation pass [Reconcile]/[reconcile], the per-cluster
    node watch registry [watchClusterNodes], the two field indexes and the
    event routing functions.  External collaborators (the object store, the
    remote cluster client builders, the patch helper) are modelled by a
    [World] record giving the outcome of each call; the reconciler's mutable
    fields and its observable effects are threaded through a small state
    monad. *)

From Stdlib Require Import ZArith Lia List Ascii String Bool.
From stdpp Require Import base gmap strings list.
Import ListNotations.
#[local] Set Warnings "-register-all".
Open Scope Z_scope.

(* ================================================================= *)
(** ** Errors (Go [error], [pkg/errors] wrapping, [kerrors] aggregates) *)

Inductive error : Type :=
  | ErrNotFound (what : string)          (* an apierrors NotFound status *)
  | ErrMsg (msg : string)                (* errors.New / fmt errors *)
  | ErrWrap (msg : string) (e : error)   (* errors.Wrap / errors.Wrapf *)
  | ErrAggregate (es : list error).      (* kerrors.Aggregate *)

(** apierrors.IsNotFound (it looks through the wrapping). *)
Fixpoint IsNotFound (e : error) : bool :=
  match e with
  | ErrNotFound _ => true
  | ErrWrap _ e' => IsNotFound e'
  | _ => false
  end.

(** kerrors.NewAggregate: nil entries are dropped; an empty remainder is
    the nil error. *)
Definition NewAggregate (errlist : list (option error)) : option error :=
  match omap id errlist with
  | [] => None
  | errs => Some (ErrAggregate errs)
  end.

(* ================================================================= *)
(** ** Data model *)

Record NamespacedName := NN { nn_namespace : string; nn_name : string }.

#[global] Instance NamespacedName_eq_dec : EqDecision NamespacedName.
Proof. solve_decision. Defined.

#[global] Instance NamespacedName_countable : Countable NamespacedName.
Proof.
  apply (inj_countable' (fun k => (nn_namespace k, nn_name k))
                        (fun p => NN p.1 p.2)).
  by intros [].
Defined.

(** Durations and instants are in nanoseconds (Go's time.Duration). *)
Definition Duration := Z.
Definition Minute : Duration := 60 * 1000000000.

(** int32(x): two's complement wrap-around to 32 bits. *)
Definition int32 (x : Z) : Z := ((x + 2^31) mod 2^32) - 2^31.

Record Cluster := {
  c_namespace : string;
  c_name : string;
  c_uid : string;
  c_paused : bool;   (* cluster.Spec.Paused *)
}.

Record NodeCondition := {
  nc_type : string;
  nc_status : string;
  nc_lastTransitionTime : Z;
}.

Record Node := {
  n_name : string;
  n_conditions : list NodeCondition;
}.

Record Machine := {
  mc_namespace : string;
  mc_name : string;
  mc_clusterName : string;          (* Spec.ClusterName *)
  mc_labels : gmap string string;
  mc_creationTimestamp : Z;
  mc_nodeRef : option string;       (* Status.NodeRef.Name *)
}.

(** metav1.LabelSelector *)
Inductive LabelSelectorOperator :=
  | OpIn | OpNotIn | OpExists | OpDoesNotExist | OpOther (s : string).

Record LabelSelectorRequirement := {
  lsr_key : string;
  lsr_operator : LabelSelectorOperator;
  lsr_values : list string;
}.

Record LabelSelector := {
  ls_matchLabels : list (string * string);
  ls_matchExpressions : list LabelSelectorRequirement;
}.

Record UnhealthyCondition := {
  uc_type : string;
  uc_status : string;
  uc_timeout : Duration;
}.

Record MachineHealthCheckSpec := {
  spec_clusterName : string;
  spec_selector : LabelSelector;
  spec_unhealthyConditions : list UnhealthyCondition;
  spec_nodeStartupTimeout : option Duration;
}.

Record MachineHealthCheckStatus := {
  st_expectedMachines : Z;   (* int32 *)
  st_currentHealthy : Z;     (* int32 *)
}.

Record OwnerReference := {
  or_apiVersion : string;
  or_kind : string;
  or_name : string;
  or_uid : string;
}.

Record MachineHealthCheck := {
  mhc_namespace : string;
  mhc_name : string;
  mhc_labels : option (gmap string string);   (* None is the nil map *)
  mhc_annotations : gmap string string;
  mhc_ownerReferences : list OwnerReference;
  mhc_spec : MachineHealthCheckSpec;
  mhc_status : MachineHealthCheckStatus;
}.

(** ctrl.Result *)
Record Result := { requeue : bool; requeueAfter : Duration }.
Definition EmptyResult : Result := {| requeue := false; requeueAfter := 0 |}.

(** runtime.Object / handler.MapObject payloads seen by this controller. *)
Inductive Object :=
  | ObjCluster (c : Cluster)
  | ObjMachine (m : Machine)
  | ObjMachineHealthCheck (h : MachineHealthCheck)
  | ObjNode (n : Node).

(** cache.Informer: the node informer built for a cluster key. *)
Inductive Informer := NodeInformer (key : NamespacedName).

(** Observable effects of a pass, in order. *)
Inductive Event :=
  | EvInformerRun (key : NamespacedName)      (* go nodeInformer.Run(...) *)
  | EvControllerWatch (key : NamespacedName)  (* r.controller.Watch succeeded *)
  | EvBuildClusterClient (cluster : string)   (* remote.NewClusterClient *)
  | EvGetTargets (mhc : string)               (* r.getTargetsFromMHC *)
  | EvRecorderWarning (reason : string)       (* r.recorder.Eventf(Warning) *)
  | EvPatch (m : MachineHealthCheck).         (* patchHelper.Patch(ctx, m) *)

(** The reconciler's mutable state: the [clusterNodeInformers] map
    ([None] is the nil map) and the effect log. *)
Record RState := {
  clusterNodeInformers : option (gmap NamespacedName Informer);
  trace : list Event;
}.

(* ================================================================= *)
(** ** A state monad for the reconciler *)

Definition M (A : Type) : Type := RState -> A * RState.

Definition ret {A} (a : A) : M A := fun s => (a, s).
Definition bind {A B} (m : M A) (f : A -> M B) : M B :=
  fun s => let (a, s') := m s in f a s'.

Notation "'let*' x := m 'in' k" := (bind m (fun x => k))
  (at level 200, x name, m at level 100, k at level 200).

Definition emit (e : Event) : M unit :=
  fun s => (tt, {| clusterNodeInformers := clusterNodeInformers s;
                   trace := trace s ++ [e] |}).

Definition get_informers : M (option (gmap NamespacedName Informer)) :=
  fun s => (clusterNodeInformers s, s).

Definition put_informers (r : option (gmap NamespacedName Informer)) : M unit :=
  fun s => (tt, {| clusterNodeInformers := r; trace := trace s |}).

(* ================================================================= *)
(** ** Collaborators *)

(** healthCheckTarget: a machine, its node when the target cluster has
    one, and the MachineHealthCheck that governs it. *)
Record Target := {
  t_machine : Machine;
  t_node : option Node;
  t_mhc : MachineHealthCheck;
}.

(** Outcomes of the calls one reconciliation pass makes on its
    collaborators: the management-cluster client (reads and the patch
    helper), the remote-cluster builders, the controller's Watch, target
    resolution ([getTargetsFromMHC]) and the clock.  [None] in an
    [option error] field is the nil error. *)
Record World := {
  w_getMHC : NamespacedName -> error + MachineHealthCheck;
  w_getCluster : NamespacedName -> error + Cluster;   (* util.GetClusterByName *)
  w_newPatchHelper : MachineHealthCheck -> option error;
  w_patch : MachineHealthCheck -> option error;
  w_newClusterClient : Cluster -> option error;      (* remote.NewClusterClient *)
  w_restConfig : Cluster -> option error;            (* remote.RESTConfig *)
  w_newForConfig : Cluster -> option error;          (* kubernetes.NewForConfig *)
  w_controllerWatch : NamespacedName -> option error; (* r.controller.Watch *)
  w_getTargets : MachineHealthCheck -> error + list Target;
  w_now : Z;
}.

(* ================================================================= *)
(** ** watchClusterNodes *)

Definition clusterKey (cluster : Cluster) : NamespacedName :=
  {| nn_namespace := c_name cluster; nn_name := c_name cluster |}.

(** [_, ok := r.clusterNodeInformers[key]] (a nil map has no entry). *)
Definition registered (key : NamespacedName)
    (informers : option (gmap NamespacedName Informer)) : bool :=
  match informers with
  | Some reg => bool_decide (is_Some (reg !! key))
  | None => false
  end.

Definition watchClusterNodes (w : World) (cluster : Cluster) : M (option error) :=
  let key := clusterKey cluster in
  let* informers := get_informers in
  if registered key informers then
    (* watch was already set up for this cluster *)
    ret None
  else
  match w_restConfig w cluster with
  | Some err => ret (Some (ErrWrap "error fetching remote cluster config" err))
  | None =>
  match w_newForConfig w cluster with
  | Some err => ret (Some (ErrWrap "error constructing remote cluster client" err))
  | None =>
    let nodeInformer := NodeInformer key in
    let* _ := emit (EvInformerRun key) in
    match w_controllerWatch w key with
    | Some err => ret (Some (ErrWrap "error watching nodes on target cluster" err))
    | None =>
      let* _ := emit (EvControllerWatch key) in
      let* informers := get_informers in
      let informers := match informers with Some reg => reg | None => ∅ end in
      let* _ := put_informers (Some (<[key := nodeInformer]> informers)) in
      ret None
    end
  end
  end.

(** The same function cut at its accesses to shared state, so that two
    invocations can be interleaved: one [watchStep] is one atomic step
    (the map lookup, a remote call, starting the informer, registering the
    watch, the map update). *)
Inductive WPhase :=
  | WStart | WChecked | WConfigured | WClientBuilt | WRunning | WWatched
  | WDone (r : option error).

Definition watchStep (w : World) (cluster : Cluster) (p : WPhase) : M WPhase :=
  let key := clusterKey cluster in
  match p with
  | WStart =>
      let* informers := get_informers in
      if registered key informers then ret (WDone None) else ret WChecked
  | WChecked =>
      match w_restConfig w cluster with
      | Some err => ret (WDone (Some (ErrWrap "error fetching remote cluster config" err)))
      | None => ret WConfigured
      end
  | WConfigured =>
      match w_newForConfig w cluster with
      | Some err => ret (WDone (Some (ErrWrap "error constructing remote cluster client" err)))
      | None => ret WClientBuilt
      end
  | WClientBuilt =>
      let* _ := emit (EvInformerRun key) in ret WRunning
  | WRunning =>
      match w_controllerWatch w key with
      | Some err => ret (WDone (Some (ErrWrap "error watching nodes on target cluster" err)))
      | None => let* _ := emit (EvControllerWatch key) in ret WWatched
      end
  | WWatched =>
      let* informers := get_informers in
      let informers := match informers with Some reg => reg | None => ∅ end in
      let* _ := put_informers (Some (<[key := NodeInformer key]> informers)) in
      ret (WDone None)
  | WDone r => ret (WDone r)
  end.

(** Run one invocation alone for [n] steps. *)
Fixpoint runWatch (w : World) (cluster : Cluster) (n : nat) (p : WPhase) : M WPhase :=
  match n with
  | O => ret p
  | S n' => let* p' := watchStep w cluster p in runWatch w cluster n' p'
  end.

(** Two invocations for clusters [c1] and [c2] running concurrently: the
    schedule says, step by step, which one moves ([true] for the first). *)
Fixpoint interleave (w : World) (c1 c2 : Cluster) (sched : list bool)
    (p1 p2 : WPhase) : M (WPhase * WPhase) :=
  match sched with
  | [] => ret (p1, p2)
  | true :: sched' =>
      let* p1' := watchStep w c1 p1 in interleave w c1 c2 sched' p1' p2
  | false :: sched' =>
      let* p2' := watchStep w c2 p2 in interleave w c1 c2 sched' p1 p2'
  end.

(** Number of node informers started for [key] in a trace. *)
Definition informersStarted (key : NamespacedName) (tr : list Event) : nat :=
  length (List.filter (fun e => match e with
                           | EvInformerRun k => bool_decide (k = key)
                           | _ => false end) tr).

(** An invocation that has checked the registry (and found no watch) but
    has not registered its watch yet. *)
Definition checkedPending (p : WPhase) : bool :=
  match p with
  | WChecked | WConfigured | WClientBuilt | WRunning | WWatched => true
  | _ => false
  end.

Definition phaseDone (p : WPhase) : bool :=
  match p with WDone _ => true | _ => false end.

(** Informers an invocation in phase [p] has still to start when every
    remaining step succeeds and it does not find the watch registered. *)
Definition pendingStarts (p : WPhase) : nat :=
  match p with
  | WStart | WChecked | WConfigured | WClientBuilt => 1
  | _ => 0
  end.

(* ================================================================= *)
(** ** Health evaluation *)

(** Modelled from the spec: [healthCheckTargets] (machinehealthcheck_targets.go,
    not part of this file) classifies each target as in section 4.5:
    no node and age at least the node-startup timeout: unhealthy (the
    boundary as in section 8: age >= timeout); no node and age below the
    timeout: not yet decidable, remaining = timeout - age; with a
    node, the first unhealthy-condition rule (in order) whose type and status
    match a node condition decides: elapsed >= rule timeout is unhealthy,
    otherwise not yet decidable with remaining = timeout - elapsed; no
    matching rule: healthy. *)
Inductive Verdict := Healthy | Unhealthy | NotYetDecidable (remaining : Duration).

Definition conditionMatches (uc : UnhealthyCondition) (c : NodeCondition) : bool :=
  String.eqb (nc_type c) (uc_type uc) && String.eqb (nc_status c) (uc_status uc).

Fixpoint firstMatchingRule (rules : list UnhealthyCondition) (n : Node)
    : option (UnhealthyCondition * NodeCondition) :=
  match rules with
  | [] => None
  | uc :: rules' =>
      match List.find (conditionMatches uc) (n_conditions n) with
      | Some c => Some (uc, c)
      | None => firstMatchingRule rules' n
      end
  end.

Definition evaluateTarget (now : Z) (timeoutForMachineToHaveNode : Duration)
    (t : Target) : Verdict :=
  match t_node t with
  | None =>
      let age := now - mc_creationTimestamp (t_machine t) in
      if timeoutForMachineToHaveNode <=? age then Unhealthy
      else NotYetDecidable (timeoutForMachineToHaveNode - age)
  | Some n =>
      match firstMatchingRule (spec_unhealthyConditions (mhc_spec (t_mhc t))) n with
      | None => Healthy
      | Some (uc, c) =>
          let elapsed := now - nc_lastTransitionTime c in
          if uc_timeout uc <=? elapsed then Unhealthy
          else NotYetDecidable (uc_timeout uc - elapsed)
      end
  end.

(** Modelled from the spec: returns (healthy count, remediation set,
    next-check durations). *)
Fixpoint healthCheckTargets (now : Z) (timeoutForMachineToHaveNode : Duration)
    (targets : list Target) : nat * list Target * list Duration :=
  match targets with
  | [] => (O, [], [])
  | t :: ts =>
      let '(h, rem, next) := healthCheckTargets now timeoutForMachineToHaveNode ts in
      match evaluateTarget now timeoutForMachineToHaveNode t with
      | Healthy => (S h, rem, next)
      | Unhealthy => (h, t :: rem, next)
      | NotYetDecidable d => (h, rem, d :: next)
      end
  end.

(** Modelled from the spec: [minDuration] (not part of this file); the
    reconciler "takes the minimum positive value from this set (if any)";
    with no positive value the result is 0. *)
Definition minDuration (durations : list Duration) : Duration :=
  match List.filter (fun d => 0 <? d) durations with
  | [] => 0
  | d :: ds => fold_left Z.min ds d
  end.

(* ================================================================= *)
(** ** util helpers used by the reconciler *)

Definition ClusterLabelName : string := "cluster.x-k8s.io/cluster-name".
Definition PausedAnnotation : string := "cluster.x-k8s.io/paused".
Definition GroupVersion : string := "cluster.x-k8s.io/v1alpha3".

(** util.IsPaused: the cluster is paused or the object carries the paused
    annotation. *)
Definition IsPaused (cluster : Cluster) (m : MachineHealthCheck) : bool :=
  c_paused cluster || bool_decide (is_Some (mhc_annotations m !! PausedAnnotation)).

(** util.EnsureOwnerRef: replace the first reference to the same object,
    or append. *)
(** strings.Split on a one-character separator. *)
Fixpoint splitOn (sep : Ascii.ascii) (l : list Ascii.ascii) : list (list Ascii.ascii) :=
  match l with
  | [] => [[]]
  | c :: l' =>
      if Ascii.eqb c sep then [] :: splitOn sep l'
      else match splitOn sep l' with
           | p :: ps => (c :: p) :: ps
           | [] => [[c]]
           end
  end.

(** schema.ParseGroupVersion, keeping the group: no slash is a version of
    the core group, one slash separates group and version, more slashes
    fail. *)
Definition parseGroup (apiVersion : string) : option string :=
  match splitOn "/"%char (list_ascii_of_string apiVersion) with
  | [_] => Some ""
  | [g; _] => Some (string_of_list_ascii g)
  | _ => None
  end.

(** util.referSameObject: same API group (an unparsable apiVersion never
    refers to the same object), kind and name. *)
Definition referSameObject (a b : OwnerReference) : bool :=
  match parseGroup (or_apiVersion a), parseGroup (or_apiVersion b) with
  | Some ga, Some gb =>
      String.eqb ga gb && String.eqb (or_kind a) (or_kind b)
      && String.eqb (or_name a) (or_name b)
  | _, _ => false
  end.

Fixpoint EnsureOwnerRef (refs : list OwnerReference) (ref : OwnerReference)
    : list OwnerReference :=
  match refs with
  | [] => [ref]
  | r :: refs' => if referSameObject r ref then ref :: refs' else r :: EnsureOwnerRef refs' ref
  end.

Definition setOwnerReferences (m : MachineHealthCheck) (refs : list OwnerReference) :=
  {| mhc_namespace := mhc_namespace m; mhc_name := mhc_name m; mhc_labels := mhc_labels m;
     mhc_annotations := mhc_annotations m; mhc_ownerReferences := refs;
     mhc_spec := mhc_spec m; mhc_status := mhc_status m |}.

Definition setLabels (m : MachineHealthCheck) (l : gmap string string) :=
  {| mhc_namespace := mhc_namespace m; mhc_name := mhc_name m; mhc_labels := Some l;
     mhc_annotations := mhc_annotations m; mhc_ownerReferences := mhc_ownerReferences m;
     mhc_spec := mhc_spec m; mhc_status := mhc_status m |}.

Definition setStatus (m : MachineHealthCheck) (st : MachineHealthCheckStatus) :=
  {| mhc_namespace := mhc_namespace m; mhc_name := mhc_name m; mhc_labels := mhc_labels m;
     mhc_annotations := mhc_annotations m; mhc_ownerReferences := mhc_ownerReferences m;
     mhc_spec := mhc_spec m; mhc_status := st |}.

Definition setExpectedMachines (m : MachineHealthCheck) (v : Z) :=
  setStatus m {| st_expectedMachines := v;
                 st_currentHealthy := st_currentHealthy (mhc_status m) |}.

Definition setCurrentHealthy (m : MachineHealthCheck) (v : Z) :=
  setStatus m {| st_expectedMachines := st_expectedMachines (mhc_status m);
                 st_currentHealthy := v |}.

(* ================================================================= *)
(** ** The reconciliation pass *)

(** The owner reference [reconcile] ensures on the policy. *)
Definition clusterOwnerRef (cluster : Cluster) : OwnerReference :=
  {| or_apiVersion := GroupVersion; or_kind := "Cluster";
     or_name := c_name cluster; or_uid := c_uid cluster |}.

(** [reconcile]: the pass proper, after the policy and its cluster were
    fetched.  It returns the result, the error and the policy object as the
    pass left it (the Go code mutates [m] through its pointer on every
    path). *)
Definition reconcile (w : World) (cluster : Cluster) (m : MachineHealthCheck)
    : M (Result * option error * MachineHealthCheck) :=
  (* Ensure the MachineHealthCheck is owned by the Cluster it belongs to *)
  let m := setOwnerReferences m
             (EnsureOwnerRef (mhc_ownerReferences m) (clusterOwnerRef cluster)) in
  (* Create client for target cluster *)
  let* _ := emit (EvBuildClusterClient (c_name cluster)) in
  match w_newClusterClient w cluster with
  | Some err => ret (EmptyResult, Some err, m)
  | None =>
  let* err := watchClusterNodes w cluster in
  match err with
  | Some err => ret (EmptyResult, Some err, m)
  | None =>
  (* fetch all targets *)
  let* _ := emit (EvGetTargets (mhc_name m)) in
  match w_getTargets w m with
  | inl err => ret (EmptyResult, Some err, m)
  | inr targets =>
    let totalTargets := length targets in
    let m := setExpectedMachines m (int32 (Z.of_nat totalTargets)) in
    (* Default to 10 minutes but override if set in MachineHealthCheck *)
    let timeoutForMachineToHaveNode :=
      match spec_nodeStartupTimeout (mhc_spec m) with
      | Some d => d
      | None => 10 * Minute
      end in
    (* health check all targets and reconcile mhc status *)
    let '(currentHealthy, needRemediationTargets, nextCheckTimes) :=
      healthCheckTargets (w_now w) timeoutForMachineToHaveNode targets in
    let m := setCurrentHealthy m (int32 (Z.of_nat currentHealthy)) in
    (* remediate: only logged *)
    let minNextCheck := minDuration nextCheckTimes in
    if 0 <? minNextCheck then
      ret ({| requeue := false; requeueAfter := minNextCheck |}, None, m)
    else ret (EmptyResult, None, m)
  end
  end
  end.

(** The body of [Reconcile] that runs under the deferred patch: label
    reconciliation, [reconcile], and the warning event on error. *)
Definition reconcileBody (w : World) (cluster : Cluster) (m : MachineHealthCheck)
    : M (Result * option error * MachineHealthCheck) :=
  (* Reconcile labels. *)
  let labels := match mhc_labels m with Some l => l | None => ∅ end in
  let m := setLabels m (<[ClusterLabelName := spec_clusterName (mhc_spec m)]> labels) in
  let* r := reconcile w cluster m in
  let '(result, err, m) := r in
  match err with
  | Some err =>
      let* _ := emit (EvRecorderWarning "ReconcileError") in
      (* Requeue immediately if any errors occurred *)
      ret (EmptyResult, Some err, m)
  | None => ret (result, None, m)
  end.

(** The deferred function: always attempt to patch the object and status;
    a patch error is aggregated with the pass's [reterr]. *)
Definition deferredPatch (w : World) (m : MachineHealthCheck)
    (res : Result) (reterr : option error) : M (Result * option error) :=
  let* _ := emit (EvPatch m) in
  match w_patch w m with
  | Some err => ret (res, NewAggregate [reterr; Some err])
  | None => ret (res, reterr)
  end.

Definition Reconcile (w : World) (req : NamespacedName) : M (Result * option error) :=
  (* Fetch the MachineHealthCheck instance *)
  match w_getMHC w req with
  | inl err =>
      if IsNotFound err then ret (EmptyResult, None)
      else ret (EmptyResult, Some err)
  | inr m =>
  match w_getCluster w {| nn_namespace := mhc_namespace m;
                          nn_name := spec_clusterName (mhc_spec m) |} with
  | inl err =>
      ret (EmptyResult,
           Some (ErrWrap "failed to get Cluster for MachineHealthCheck" err))
  | inr cluster =>
  (* Return early if the object or Cluster is paused. *)
  if IsPaused cluster m then ret (EmptyResult, None) else
  (* Initialize the patch helper *)
  match w_newPatchHelper w m with
  | Some err => ret (EmptyResult, Some err)
  | None =>
      let* r := reconcileBody w cluster m in
      let '(res, reterr, m) := r in
      deferredPatch w m res reterr
  end
  end
  end.

(* ================================================================= *)
(** ** Label selectors (apimachinery [labels] / [metav1]) *)

(** selection.Operator (Equals, In, NotIn, Exists, DoesNotExist) and labels.Requirement *)
Inductive Operator := SelEquals | SelIn | SelNotIn | SelExists | SelDoesNotExist.

Record Requirement := {
  rq_key : string;
  rq_operator : Operator;
  rq_values : list string;
}.

(** labels.internalSelector: a conjunction of requirements. *)
Definition Selector := list Requirement.

(** apimachinery's util/validation, which labels.NewRequirement uses to
    check keys (IsQualifiedName) and values (IsValidLabelValue).  Strings
    are byte strings; Go's len counts bytes. *)
Definition asciiBetween (lo hi : nat) (c : Ascii.ascii) : bool :=
  let n := Ascii.nat_of_ascii c in ((lo <=? n) && (n <=? hi))%nat.

(** [A-Za-z0-9] *)
Definition qnameChar (c : Ascii.ascii) : bool :=
  asciiBetween 65 90 c || asciiBetween 97 122 c || asciiBetween 48 57 c.

(** [-A-Za-z0-9_.] *)
Definition qnameExtChar (c : Ascii.ascii) : bool :=
  qnameChar c || Ascii.eqb c "-"%char || Ascii.eqb c "_"%char || Ascii.eqb c "."%char.

(** [a-z0-9] and [-a-z0-9] *)
Definition dnsChar (c : Ascii.ascii) : bool := asciiBetween 97 122 c || asciiBetween 48 57 c.
Definition dnsExtChar (c : Ascii.ascii) : bool := dnsChar c || Ascii.eqb c "-"%char.

(** A whole-string match of [first (ext* last)?]: non-empty, the first and
    last characters in [first], all of them in [ext]. *)
Definition matchBracketed (first ext : Ascii.ascii -> bool) (l : list Ascii.ascii) : bool :=
  match l with
  | [] => false
  | c :: _ => first c && first (List.last l c) && forallb ext l
  end.

(** The qualified-name pattern: an alphanumeric character, or an
    alphanumeric first and last character with [-A-Za-z0-9_.] between. *)
Definition qualifiedNameRegexp (l : list Ascii.ascii) : bool :=
  matchBracketed qnameChar qnameExtChar l.

(** The DNS-1123 label pattern: [a-z0-9], or [a-z0-9] first and last
    with [-a-z0-9] between. *)
Definition dns1123LabelRegexp (l : list Ascii.ascii) : bool :=
  matchBracketed dnsChar dnsExtChar l.

(** IsDNS1123Subdomain: at most 253 bytes, dot-separated DNS labels. *)
Definition IsDNS1123Subdomain (l : list Ascii.ascii) : bool :=
  (length l <=? 253)%nat && forallb dns1123LabelRegexp (splitOn "."%char l).

(** IsQualifiedName: an optional non-empty DNS-subdomain prefix and a
    slash, then a non-empty name of at most 63 bytes matching the
    qualified-name pattern. *)
Definition qualifiedNamePart (name : list Ascii.ascii) : bool :=
  negb (Nat.eqb (length name) 0) && (length name <=? 63)%nat && qualifiedNameRegexp name.

Definition IsQualifiedName (value : string) : bool :=
  match splitOn "/"%char (list_ascii_of_string value) with
  | [name] => qualifiedNamePart name
  | [prefix; name] =>
      negb (Nat.eqb (length prefix) 0) && IsDNS1123Subdomain prefix && qualifiedNamePart name
  | _ => false
  end.

(** IsValidLabelValue: at most 63 bytes, empty or a qualified-name match. *)
Definition IsValidLabelValue (value : string) : bool :=
  let l := list_ascii_of_string value in
  (length l <=? 63)%nat && (Nat.eqb (length l) 0 || qualifiedNameRegexp l).

(** labels' validateLabelKey and validateLabelValue. *)
Definition validLabelKey (k : string) : bool := IsQualifiedName k.
Definition validLabelValue (v : string) : bool := IsValidLabelValue v.

Definition NewRequirement (key : string) (op : Operator) (vals : list string)
    : error + Requirement :=
  if negb (validLabelKey key) then inl (ErrMsg "invalid label key") else
  let arity_ok :=
    match op with
    | SelIn | SelNotIn => negb (Nat.eqb (length vals) 0)
    | SelEquals => Nat.eqb (length vals) 1
    | SelExists | SelDoesNotExist => Nat.eqb (length vals) 0
    end in
  if negb arity_ok then inl (ErrMsg "invalid number of values for operator") else
  if negb (forallb validLabelValue vals) then inl (ErrMsg "invalid label value") else
  inr {| rq_key := key; rq_operator := op; rq_values := vals |}.

Definition selectorOperator (op : LabelSelectorOperator) : error + Operator :=
  match op with
  | OpIn => inr SelIn
  | OpNotIn => inr SelNotIn
  | OpExists => inr SelExists
  | OpDoesNotExist => inr SelDoesNotExist
  | OpOther s => inl (ErrMsg "is not a valid pod selector operator")
  end.

Fixpoint addMatchLabels (sel : Selector) (ls : list (string * string)) : error + Selector :=
  match ls with
  | [] => inr sel
  | (k, v) :: ls' =>
      match NewRequirement k SelEquals [v] with
      | inl err => inl err
      | inr r => addMatchLabels (sel ++ [r]) ls'
      end
  end.

Fixpoint addMatchExpressions (sel : Selector) (es : list LabelSelectorRequirement)
    : error + Selector :=
  match es with
  | [] => inr sel
  | e :: es' =>
      match selectorOperator (lsr_operator e) with
      | inl err => inl err
      | inr op =>
          match NewRequirement (lsr_key e) op (lsr_values e) with
          | inl err => inl err
          | inr r => addMatchExpressions (sel ++ [r]) es'
          end
      end
  end.

(** metav1.LabelSelectorAsSelector (for a non-nil selector): no labels and
    no expressions give labels.Everything(), the empty selector. *)
Definition LabelSelectorAsSelector (ps : LabelSelector) : error + Selector :=
  if Nat.eqb (length (ls_matchLabels ps) + length (ls_matchExpressions ps)) 0
  then inr []
  else
    match addMatchLabels [] (ls_matchLabels ps) with
    | inl err => inl err
    | inr sel => addMatchExpressions sel (ls_matchExpressions ps)
    end.

Definition selectorEmpty (sel : Selector) : bool :=
  match sel with [] => true | _ => false end.

Definition requirementMatches (ls : gmap string string) (r : Requirement) : bool :=
  match rq_operator r with
  | SelEquals | SelIn =>
      match ls !! rq_key r with
      | Some v => existsb (String.eqb v) (rq_values r)
      | None => false
      end
  | SelNotIn =>
      match ls !! rq_key r with
      | Some v => negb (existsb (String.eqb v) (rq_values r))
      | None => true
      end
  | SelExists => bool_decide (is_Some (ls !! rq_key r))
  | SelDoesNotExist => negb (bool_decide (is_Some (ls !! rq_key r)))
  end.

Definition selectorMatches (sel : Selector) (ls : gmap string string) : bool :=
  forallb (requirementMatches ls) sel.

(** hasMatchingLabels verifies that the MachineHealthCheck's label selector
    matches the given Machine. *)
Definition hasMatchingLabels (machineHealthCheck : MachineHealthCheck)
    (machine : Machine) : bool :=
  match LabelSelectorAsSelector (spec_selector (mhc_spec machineHealthCheck)) with
  | inl _ => false
  | inr selector =>
      if selectorEmpty selector then false
      else if negb (selectorMatches selector (mc_labels machine)) then false
      else true
  end.

(* ================================================================= *)
(** ** Field indexes and event routing *)

(** The cached management-cluster view the List calls read. *)
Record Store := {
  store_machines : list Machine;
  store_mhcs : list MachineHealthCheck;
  store_listMachinesErr : option error;
  store_listMHCsErr : option error;
}.

Definition mhcClusterNameIndex : string := "spec.clusterName".
Definition machineNodeNameIndex : string := "status.nodeRef.name".

Definition indexMachineHealthCheckByClusterName (object : Object) : list string :=
  match object with
  | ObjMachineHealthCheck mhc => [spec_clusterName (mhc_spec mhc)]
  | _ => []   (* incorrect type: logged *)
  end.

Definition indexMachineByNodeName (object : Object) : list string :=
  match object with
  | ObjMachine machine =>
      match mc_nodeRef machine with
      | Some name => [name]
      | None => []
      end
  | _ => []   (* incorrect type: logged *)
  end.

(** Namespace filter of a List call: "" lists all namespaces. *)
Definition inNamespace (ns objNs : string) : bool :=
  String.eqb ns "" || String.eqb ns objNs.

(** List MachineHealthChecks in [ns] with MatchingFields{mhcClusterNameIndex: v}. *)
Definition listMHCsByClusterName (st : Store) (ns v : string)
    : error + list MachineHealthCheck :=
  match store_listMHCsErr st with
  | Some err => inl err
  | None =>
      inr (List.filter (fun h => inNamespace ns (mhc_namespace h)
             && existsb (String.eqb v)
                  (indexMachineHealthCheckByClusterName (ObjMachineHealthCheck h)))
             (store_mhcs st))
  end.

(** List Machines with MatchingFields{machineNodeNameIndex: v}, no namespace. *)
Definition listMachinesByNodeName (st : Store) (v : string) : error + list Machine :=
  match store_listMachinesErr st with
  | Some err => inl err
  | None =>
      inr (List.filter (fun m => existsb (String.eqb v) (indexMachineByNodeName (ObjMachine m)))
             (store_machines st))
  end.

Definition Request := NamespacedName.

Definition mhcRequest (h : MachineHealthCheck) : Request :=
  {| nn_namespace := mhc_namespace h; nn_name := mhc_name h |}.

Definition clusterToMachineHealthCheck (st : Store) (o : Object) : list Request :=
  match o with
  | ObjCluster c =>
      match listMHCsByClusterName st (c_namespace c) (c_name c) with
      | inl _ => []
      | inr mhcList => map mhcRequest mhcList
      end
  | _ => []
  end.

Definition machineToMachineHealthCheck (st : Store) (o : Object) : list Request :=
  match o with
  | ObjMachine m =>
      match listMHCsByClusterName st (mc_namespace m) (mc_clusterName m) with
      | inl _ => []
      | inr mhcList =>
          map mhcRequest (List.filter (fun h => hasMatchingLabels h m) mhcList)
      end
  | _ => []
  end.

Definition getMachineFromNode (st : Store) (nodeName : string) : error + Machine :=
  match listMachinesByNodeName st nodeName with
  | inl err => inl (ErrWrap "failed getting machine list" err)
  | inr [machine] => inr machine
  | inr _ => inl (ErrMsg "expecting one machine for node")
  end.

Definition nodeToMachineHealthCheck (st : Store) (o : Object) : list Request :=
  match o with
  | ObjNode node =>
      match getMachineFromNode st (n_name node) with
      | inl _ => []   (* Unable to retrieve machine from node: logged *)
      | inr machine =>
          match listMHCsByClusterName st (mc_namespace machine) (mc_clusterName machine) with
          | inl _ => []
          | inr mhcList =>
              map mhcRequest (List.filter (fun h => hasMatchingLabels h machine) mhcList)
          end
      end
  | _ => []
  end.

(* ================================================================= *)
(** ** Concrete scenarios *)

Definition cluster0 : Cluster :=
  {| c_namespace := "default"; c_name := "c1"; c_uid := "uid-c1"; c_paused := false |}.

(** A cluster of the same name in another namespace. *)
Definition cluster0' : Cluster :=
  {| c_namespace := "team-b"; c_name := "c1"; c_uid := "uid-c1-b"; c_paused := false |}.

Definition selector0 : LabelSelector :=
  {| ls_matchLabels := [("role", "worker")]; ls_matchExpressions := [] |}.

Definition emptySelector : LabelSelector :=
  {| ls_matchLabels := []; ls_matchExpressions := [] |}.

Definition mhcWithSelector (sel : LabelSelector) : MachineHealthCheck :=
  {| mhc_namespace := "default"; mhc_name := "mhc1"; mhc_labels := None;
     mhc_annotations := ∅; mhc_ownerReferences := [];
     mhc_spec := {| spec_clusterName := "c1"; spec_selector := sel;
                    spec_unhealthyConditions :=
                      [{| uc_type := "Ready"; uc_status := "False"; uc_timeout := 5 * Minute |}];
                    spec_nodeStartupTimeout := None |};
     mhc_status := {| st_expectedMachines := 0; st_currentHealthy := 0 |} |}.

Definition mhc0 : MachineHealthCheck := mhcWithSelector selector0.

Definition req0 : NamespacedName := {| nn_namespace := "default"; nn_name := "mhc1" |}.

Definition now0 : Z := 60 * Minute.

(** A machine without a node whose age is exactly the default node-startup
    timeout (10 minutes). *)
Definition machinePending : Machine :=
  {| mc_namespace := "default"; mc_name := "m2"; mc_clusterName := "c1";
     mc_labels := <["role" := "worker"]> ∅;
     mc_creationTimestamp := now0 - 10 * Minute; mc_nodeRef := None |}.

Definition machineWithNode (ns name node : string) : Machine :=
  {| mc_namespace := ns; mc_name := name; mc_clusterName := "c1";
     mc_labels := <["role" := "worker"]> ∅;
     mc_creationTimestamp := 0; mc_nodeRef := Some node |}.

Definition readyNode : Node :=
  {| n_name := "n1";
     n_conditions := [{| nc_type := "Ready"; nc_status := "True"; nc_lastTransitionTime := 0 |}] |}.

Definition targetPending : Target :=
  {| t_machine := machinePending; t_node := None; t_mhc := mhc0 |}.

Definition targetHealthy : Target :=
  {| t_machine := machineWithNode "default" "m1" "n1"; t_node := Some readyNode; t_mhc := mhc0 |}.

(** A management cluster where every call succeeds, resolving [targets]. *)
Definition okWorld (targets : list Target) : World :=
  {| w_getMHC := fun _ => inr mhc0;
     w_getCluster := fun _ => inr cluster0;
     w_newPatchHelper := fun _ => None;
     w_patch := fun _ => None;
     w_newClusterClient := fun _ => None;
     w_restConfig := fun _ => None;
     w_newForConfig := fun _ => None;
     w_controllerWatch := fun _ => None;
     w_getTargets := fun _ => inr targets;
     w_now := now0 |}.

(** The same, except that the patch helper cannot be built. *)
Definition helperFailsWorld : World :=
  {| w_getMHC := fun _ => inr mhc0;
     w_getCluster := fun _ => inr cluster0;
     w_newPatchHelper := fun _ => Some (ErrMsg "failed to convert object to unstructured");
     w_patch := fun _ => None;
     w_newClusterClient := fun _ => None;
     w_restConfig := fun _ => None;
     w_newForConfig := fun _ => None;
     w_controllerWatch := fun _ => None;
     w_getTargets := fun _ => inr [];
     w_now := now0 |}.

(** The same, except that the patch fails. *)
Definition patchFailsWorld : World :=
  {| w_getMHC := fun _ => inr mhc0;
     w_getCluster := fun _ => inr cluster0;
     w_newPatchHelper := fun _ => None;
     w_patch := fun _ => Some (ErrMsg "conflict");
     w_newClusterClient := fun _ => Some (ErrMsg "no kubeconfig");
     w_restConfig := fun _ => None;
     w_newForConfig := fun _ => None;
     w_controllerWatch := fun _ => None;
     w_getTargets := fun _ => inr [];
     w_now := now0 |}.

(** A paused cluster, and a world that returns it. *)
Definition clusterPaused : Cluster :=
  {| c_namespace := "default"; c_name := "c1"; c_uid := "uid-c1"; c_paused := true |}.

Definition pausedWorld : World :=
  {| w_getMHC := fun _ => inr mhc0;
     w_getCluster := fun _ => inr clusterPaused;
     w_newPatchHelper := fun _ => None;
     w_patch := fun _ => None;
     w_newClusterClient := fun _ => None;
     w_restConfig := fun _ => None;
     w_newForConfig := fun _ => None;
     w_controllerWatch := fun _ => None;
     w_getTargets := fun _ => inr [];
     w_now := now0 |}.

(** A machine without a node, five minutes old. *)
Definition targetYoung : Target :=
  {| t_machine := {| mc_namespace := "default"; mc_name := "m3"; mc_clusterName := "c1";
                     mc_labels := <["role" := "worker"]> ∅;
                     mc_creationTimestamp := now0 - 5 * Minute; mc_nodeRef := None |};
     t_node := None; t_mhc := mhc0 |}.

(** A world where the policy is gone, and one where the controller's
    Watch on the node informer fails. *)
Definition notFoundWorld : World :=
  {| w_getMHC := fun _ => inl (ErrNotFound "machinehealthcheck");
     w_getCluster := fun _ => inr cluster0;
     w_newPatchHelper := fun _ => None;
     w_patch := fun _ => None;
     w_newClusterClient := fun _ => None;
     w_restConfig := fun _ => None;
     w_newForConfig := fun _ => None;
     w_controllerWatch := fun _ => None;
     w_getTargets := fun _ => inr [];
     w_now := now0 |}.

Definition watchFailsWorld : World :=
  {| w_getMHC := fun _ => inr mhc0;
     w_getCluster := fun _ => inr cluster0;
     w_newPatchHelper := fun _ => None;
     w_patch := fun _ => None;
     w_newClusterClient := fun _ => None;
     w_restConfig := fun _ => None;
     w_newForConfig := fun _ => None;
     w_controllerWatch := fun _ => Some (ErrMsg "controller not started");
     w_getTargets := fun _ => inr [];
     w_now := now0 |}.

Definition store1 : Store :=
  {| store_machines := [machineWithNode "default" "m1" "n1"; machinePending];
     store_mhcs := [mhc0]; store_listMachinesErr := None; store_listMHCsErr := None |}.

Definition sReg : RState :=
  {| clusterNodeInformers :=
       Some {[ {| nn_namespace := "c2"; nn_name := "c2" |} :=
                 NodeInformer {| nn_namespace := "c2"; nn_name := "c2" |} ]};
     trace := [] |}.

Definition s0 : RState := {| clusterNodeInformers := Some ∅; trace := [] |}.

(** 2^31 healthy targets. *)
Definition manyTargets : list Target := repeat targetHealthy (Z.to_nat (2 ^ 31)).

(** Both invocations check the registry before either goes on. *)
Definition bothCheckFirst : list bool :=
  [true; false; true; true; true; true; true; false; false; false; false; false].

Definition store2 : Store :=
  {| store_machines := [machineWithNode "default" "m1" "n1"; machineWithNode "team-b" "m1" "n1"];
     store_mhcs := [mhc0]; store_listMachinesErr := None; store_listMHCsErr := None |}.

(* ================================================================= *)
(** * Properties *)

(* ----------------------------------------------------------------- *)
(** ** Selector matching *)

Lemma LabelSelectorAsSelector_empty (ps : LabelSelector) :
  ls_matchLabels ps = [] -> ls_matchExpressions ps = [] ->
  LabelSelectorAsSelector ps = inr [].
Proof. intros Hl He. unfold LabelSelectorAsSelector. by rewrite Hl, He. Qed.

(** C2: a MachineHealthCheck whose label selector is empty (no labels and
    no expressions) or fails to convert to a selector matches no machine. *)
Theorem hasMatchingLabels_empty_or_invalid (h : MachineHealthCheck) (m : Machine) :
  (ls_matchLabels (spec_selector (mhc_spec h)) = [] /\
   ls_matchExpressions (spec_selector (mhc_spec h)) = [])
  \/ (exists err, LabelSelectorAsSelector (spec_selector (mhc_spec h)) = inl err) ->
  hasMatchingLabels h m = false.
Proof.
  unfold hasMatchingLabels. intros [[Hl He] | [err Herr]].
  - by rewrite (LabelSelectorAsSelector_empty _ Hl He).
  - by rewrite Herr.
Qed.

(* ----------------------------------------------------------------- *)
(** ** Event routing *)

(** C3: a node event is routed by resolving its machine through the
    node-name index: exactly one machine delegates to the Machine mapping
    (namespace and cluster-name index filter plus selector match); zero or
    several machines (or a failed list) give no request. *)
Theorem nodeToMachineHealthCheck_via_machine (st : Store) (node : Node) :
  nodeToMachineHealthCheck st (ObjNode node) =
    match listMachinesByNodeName st (n_name node) with
    | inr [machine] => machineToMachineHealthCheck st (ObjMachine machine)
    | _ => []
    end.
Proof.
  unfold nodeToMachineHealthCheck, getMachineFromNode, machineToMachineHealthCheck.
  destruct (listMachinesByNodeName st (n_name node)) as [err | [| m [| m' l]]];
    reflexivity.
Qed.

Lemma two_distinct_length {A} (a b : A) (l : list A) :
  In a l -> In b l -> a <> b -> (2 <= length l)%nat.
Proof.
  induction l as [| x l IH]; simpl; [tauto |].
  intros Ha Hb Hab.
  destruct Ha as [<- | Ha], Hb as [<- | Hb]; try congruence;
    destruct l; simpl in *; try tauto; lia.
Qed.

Lemma listMachinesByNodeName_spec (st : Store) (n : string) (l : list Machine) :
  listMachinesByNodeName st n = inr l ->
  forall m, In m l <-> In m (store_machines st) /\ mc_nodeRef m = Some n.
Proof.
  unfold listMachinesByNodeName. destruct (store_listMachinesErr st); [done |].
  intros [= <-] m. rewrite filter_In. simpl.
  destruct (mc_nodeRef m) as [n' |]; simpl.
  - rewrite orb_false_r, String.eqb_eq.
    split; intros [? Heq]; [subst | injection Heq as <-]; auto.
  - split; intros [? ?]; discriminate.
Qed.

(** C10: the node-to-machine lookup filters machines of every namespace by
    node name only; two machines in different namespaces that reference the
    same node make it fail, and the node event yields no request. *)
Theorem getMachineFromNode_across_namespaces (st : Store) (n : string) (m1 m2 : Machine) :
  In m1 (store_machines st) -> In m2 (store_machines st) ->
  mc_namespace m1 <> mc_namespace m2 ->
  mc_nodeRef m1 = Some n -> mc_nodeRef m2 = Some n ->
  (forall l, listMachinesByNodeName st n = inr l ->
     forall m, In m l <-> In m (store_machines st) /\ mc_nodeRef m = Some n)
  /\ (exists err, getMachineFromNode st n = inl err)
  /\ (forall node, n_name node = n -> nodeToMachineHealthCheck st (ObjNode node) = []).
Proof.
  intros H1 H2 Hns Hn1 Hn2.
  assert (Hfail : exists err, getMachineFromNode st n = inl err).
  { unfold getMachineFromNode.
    destruct (listMachinesByNodeName st n) as [err | l] eqn:Hl; [by eexists |].
    pose proof (listMachinesByNodeName_spec st n l Hl) as Hspec.
    assert (Hlen : (2 <= length l)%nat).
    { apply (two_distinct_length m1 m2); [by apply Hspec | by apply Hspec |].
      intros ->. done. }
    destruct l as [| a [| b l]]; simpl in Hlen; [lia | lia | by eexists]. }
  split; [exact (listMachinesByNodeName_spec st n) |].
  split; [exact Hfail |].
  intros node Hname. unfold nodeToMachineHealthCheck. rewrite Hname.
  destruct Hfail as [err ->]. reflexivity.
Qed.

(* ----------------------------------------------------------------- *)
(** ** Pausing *)

(** C6: when the policy and its cluster are fetched and either is paused,
    [Reconcile] returns success with no requeue and leaves the reconciler's
    state untouched: no owner-reference or label change is persisted (no
    patch), no watch is set up, no client is built, no targets are resolved
    and no status is written. *)
Theorem Reconcile_paused (w : World) (req : NamespacedName) (s : RState)
    (m : MachineHealthCheck) (cluster : Cluster) :
  w_getMHC w req = inr m ->
  w_getCluster w {| nn_namespace := mhc_namespace m;
                    nn_name := spec_clusterName (mhc_spec m) |} = inr cluster ->
  IsPaused cluster m = true ->
  Reconcile w req s = ((EmptyResult, None), s).
Proof.
  intros Hm Hc Hp. unfold Reconcile. rewrite Hm, Hc, Hp. reflexivity.
Qed.

(* ----------------------------------------------------------------- *)
(** ** The cluster watch registry *)

Ltac unfold_watch :=
  unfold watchClusterNodes, bind, ret, emit, get_informers, put_informers; simpl.

Lemma watchClusterNodes_registered (w : World) (cluster : Cluster) (s : RState) :
  registered (clusterKey cluster) (clusterNodeInformers s) = true ->
  watchClusterNodes w cluster s = (None, s).
Proof. intros Hr. unfold_watch. by rewrite Hr. Qed.

Lemma registered_insert (key : NamespacedName) (i : Informer)
    (r : option (gmap NamespacedName Informer)) :
  registered key (Some (<[key := i]> (match r with Some reg => reg | None => ∅ end))) = true.
Proof. simpl. apply bool_decide_eq_true. by rewrite lookup_insert_eq. Qed.

(** C7: a watch already registered for the cluster's key makes the call a
    no-op; a failure of the remote config, the client or the controller
    watch is returned and leaves the registry as it was; the registry only
    changes when a watch was started and registered, and then by adding the
    informer under the key. *)
Theorem watchClusterNodes_registry (w : World) (cluster : Cluster) (s : RState) :
  let key := clusterKey cluster in
  let '(err, s') := watchClusterNodes w cluster s in
  (registered key (clusterNodeInformers s) = true -> err = None /\ s' = s)
  /\ (forall e, registered key (clusterNodeInformers s) = false ->
        w_restConfig w cluster = Some e
        \/ (w_restConfig w cluster = None /\ w_newForConfig w cluster = Some e)
        \/ (w_restConfig w cluster = None /\ w_newForConfig w cluster = None
            /\ w_controllerWatch w key = Some e) ->
        (exists msg, err = Some (ErrWrap msg e))
        /\ clusterNodeInformers s' = clusterNodeInformers s)
  /\ (err <> None -> clusterNodeInformers s' = clusterNodeInformers s)
  /\ (clusterNodeInformers s' <> clusterNodeInformers s ->
        err = None
        /\ registered key (clusterNodeInformers s) = false
        /\ trace s' = trace s ++ [EvInformerRun key; EvControllerWatch key]
        /\ clusterNodeInformers s' =
             Some (<[key := NodeInformer key]>
                     (match clusterNodeInformers s with Some reg => reg | None => ∅ end))).
Proof.
  simpl. destruct (watchClusterNodes w cluster s) as [err s'] eqn:Hw.
  revert Hw. unfold_watch.
  destruct (registered (clusterKey cluster) (clusterNodeInformers s)) eqn:Hr.
  { intros [= <- <-]. split; [done |]. split; [| split]; [| done | done].
    intros e He. discriminate. }
  destruct (w_restConfig w cluster) as [e1 |] eqn:Hrc.
  { intros [= <- <-]. split; [done |]. split; [| split]; [| done | done].
    intros e _ [H | [[H _] | [H _]]]; try discriminate.
    injection H as <-. split; [by eexists | done]. }
  destruct (w_newForConfig w cluster) as [e2 |] eqn:Hnc.
  { intros [= <- <-]. split; [done |]. split; [| split]; [| done | done].
    intros e _ [H | [[_ H] | [_ [H _]]]]; try discriminate.
    injection H as <-. split; [by eexists | done]. }
  destruct (w_controllerWatch w (clusterKey cluster)) as [e3 |] eqn:Hcw.
  { intros [= <- <-]. split; [done |]. split; [| split]; [| done | done].
    intros e _ [H | [[_ H] | [_ [_ H]]]]; try discriminate.
    injection H as <-. split; [by eexists | done]. }
  intros [= <- <-]. split; [done |]. split; [| split].
  - intros e _ [H | [[_ H] | [_ [_ H]]]]; discriminate.
  - done.
  - intros _. simpl. repeat split; [by rewrite <- app_assoc].
Qed.

(** C9: the registry key uses the cluster's name as both namespace and
    name, so clusters with the same name share it: once the operation
    succeeded for one of them, it is a no-op for the other. *)
Theorem watchClusterNodes_same_name (w : World) (c1 c2 : Cluster) (s : RState) :
  c_name c1 = c_name c2 ->
  clusterKey c1 = clusterKey c2
  /\ (let '(err, s1) := watchClusterNodes w c1 s in
      err = None -> watchClusterNodes w c2 s1 = (None, s1)).
Proof.
  intros Hname.
  assert (Hkey : clusterKey c1 = clusterKey c2) by (unfold clusterKey; by rewrite Hname).
  split; [exact Hkey |].
  destruct (watchClusterNodes w c1 s) as [err s1] eqn:Hw. intros ->.
  apply watchClusterNodes_registered. rewrite <- Hkey.
  revert Hw. unfold_watch.
  destruct (registered (clusterKey c1) (clusterNodeInformers s)) eqn:Hr.
  { intros [= <-]. exact Hr. }
  destruct (w_restConfig w c1); [done |].
  destruct (w_newForConfig w c1); [done |].
  destruct (w_controllerWatch w (clusterKey c1)); [done |].
  intros [= <-]. simpl. apply registered_insert.
Qed.

(* ----------------------------------------------------------------- *)
(** ** The deferred patch *)

Definition isPatch (e : Event) : bool :=
  match e with EvPatch _ => true | _ => false end.

Definition patchCount (tr : list Event) : nat := length (List.filter isPatch tr).

(** A computation that only appends non-patch events to the trace. *)
Definition NoPatch {A} (c : M A) : Prop :=
  forall s, exists tr, trace (snd (c s)) = trace s ++ tr /\ patchCount tr = O.

Lemma NoPatch_ret {A} (a : A) : NoPatch (ret a).
Proof. intros s. exists []. by rewrite app_nil_r. Qed.

Lemma NoPatch_bind {A B} (c : M A) (f : A -> M B) :
  NoPatch c -> (forall a, NoPatch (f a)) -> NoPatch (bind c f).
Proof.
  intros Hc Hf s. unfold bind.
  destruct (Hc s) as [tr1 [H1 P1]]. destruct (c s) as [a s1]. simpl in H1.
  destruct (Hf a s1) as [tr2 [H2 P2]]. exists (tr1 ++ tr2). split.
  - by rewrite H2, H1, app_assoc.
  - unfold patchCount in *. by rewrite List.filter_app, length_app, P1, P2.
Qed.

Lemma NoPatch_emit (e : Event) : isPatch e = false -> NoPatch (emit e).
Proof. intros He s. exists [e]. unfold patchCount. simpl. by rewrite He. Qed.

Lemma NoPatch_get_informers : NoPatch get_informers.
Proof. intros s. exists []. by rewrite app_nil_r. Qed.

Lemma NoPatch_put_informers r : NoPatch (put_informers r).
Proof. intros s. exists []. by rewrite app_nil_r. Qed.

Create HintDb nopatch.
#[local] Hint Resolve NoPatch_ret NoPatch_get_informers NoPatch_put_informers : nopatch.

Ltac nopatch :=
  repeat match goal with
  | |- NoPatch (bind _ _) => apply NoPatch_bind; [| intros ?]
  | |- NoPatch (emit _) => apply NoPatch_emit; reflexivity
  | |- NoPatch (match ?x with _ => _ end) => destruct x
  | |- NoPatch (if ?b then _ else _) => destruct b
  | |- NoPatch _ => solve [eauto with nopatch]
  end.

Lemma NoPatch_watchClusterNodes w cluster : NoPatch (watchClusterNodes w cluster).
Proof. unfold watchClusterNodes. nopatch. Qed.
#[local] Hint Resolve NoPatch_watchClusterNodes : nopatch.

Lemma NoPatch_reconcile w cluster m : NoPatch (reconcile w cluster m).
Proof. unfold reconcile. nopatch. Qed.
#[local] Hint Resolve NoPatch_reconcile : nopatch.

Lemma NoPatch_reconcileBody w cluster m : NoPatch (reconcileBody w cluster m).
Proof. unfold reconcileBody. nopatch. Qed.

Lemma NewAggregate_patch (reterr : option error) (perr : error) :
  NewAggregate [reterr; Some perr] = Some (ErrAggregate (option_list reterr ++ [perr])).
Proof. by destruct reterr. Qed.

(** C1 (amended): once the policy and its cluster are fetched, the pass is
    not paused and the patch helper is built, the body runs without
    patching and the patch of the object the body left runs exactly once, as
    the last step, whatever path the body took; a patch error is aggregated
    after the body's error, which is kept.  When the cluster fetch or the
    patch-helper construction fails, the error is returned and nothing is
    patched. *)
Theorem Reconcile_deferred_patch (w : World) (req : NamespacedName) (s : RState)
    (m : MachineHealthCheck) :
  w_getMHC w req = inr m ->
  let ckey := {| nn_namespace := mhc_namespace m;
                 nn_name := spec_clusterName (mhc_spec m) |} in
  (forall err, w_getCluster w ckey = inl err ->
     exists e, Reconcile w req s = ((EmptyResult, Some e), s))
  /\ (forall cluster err, w_getCluster w ckey = inr cluster ->
        IsPaused cluster m = false -> w_newPatchHelper w m = Some err ->
        Reconcile w req s = ((EmptyResult, Some err), s))
  /\ (forall cluster, w_getCluster w ckey = inr cluster ->
        IsPaused cluster m = false -> w_newPatchHelper w m = None ->
        let '((res, reterr, m'), s1) := reconcileBody w cluster m s in
        (exists tr, trace s1 = trace s ++ tr /\ patchCount tr = O)
        /\ Reconcile w req s =
             ((res, match w_patch w m' with
                    | None => reterr
                    | Some perr => Some (ErrAggregate (option_list reterr ++ [perr]))
                    end),
              {| clusterNodeInformers := clusterNodeInformers s1;
                 trace := trace s1 ++ [EvPatch m'] |})).
Proof.
  intros Hm ckey. unfold Reconcile. rewrite Hm. fold ckey.
  split; [| split].
  - intros err Hc. rewrite Hc. by eexists.
  - intros cluster err Hc Hp Hh. by rewrite Hc, Hp, Hh.
  - intros cluster Hc Hp Hh. rewrite Hc, Hp, Hh.
    pose proof (NoPatch_reconcileBody w cluster m s) as Hnp.
    unfold bind at 1.
    destruct (reconcileBody w cluster m s) as [[[res reterr] m'] s1]. simpl in Hnp.
    split; [exact Hnp |].
    unfold deferredPatch, bind, emit, ret. simpl.
    destruct (w_patch w m') as [perr |]; [| reflexivity].
    by rewrite NewAggregate_patch.
Qed.

(* ----------------------------------------------------------------- *)
(** ** Status counters and requeue *)

(** The node-startup timeout [reconcile] uses for a policy. *)
Definition startupTimeout (m : MachineHealthCheck) : Duration :=
  match spec_nodeStartupTimeout (mhc_spec m) with
  | Some d => d
  | None => 10 * Minute
  end.

(** The policy as [reconcile] hands it to target resolution. *)
Definition ownedBy (cluster : Cluster) (m : MachineHealthCheck) : MachineHealthCheck :=
  setOwnerReferences m (EnsureOwnerRef (mhc_ownerReferences m) (clusterOwnerRef cluster)).

(** Targets classified healthy, and the remaining times of the targets
    that are not yet decidable. *)
Definition healthyCount (now : Z) (timeout : Duration) (ts : list Target) : nat :=
  length (List.filter (fun t => match evaluateTarget now timeout t with
                                | Healthy => true | _ => false end) ts).

Definition nextChecks (now : Z) (timeout : Duration) (ts : list Target) : list Duration :=
  omap (fun t => match evaluateTarget now timeout t with
                 | NotYetDecidable d => Some d | _ => None end) ts.

Lemma healthCheckTargets_counts (now : Z) (timeout : Duration) (ts : list Target) :
  let '(h, _, next) := healthCheckTargets now timeout ts in
  h = healthyCount now timeout ts /\ next = nextChecks now timeout ts.
Proof.
  unfold healthyCount, nextChecks.
  induction ts as [| t ts IH]; simpl; [done |].
  destruct (healthCheckTargets now timeout ts) as [[h rem] next].
  destruct IH as [-> ->].
  destruct (evaluateTarget now timeout t); simpl; done.
Qed.

Lemma healthyCount_le (now : Z) (timeout : Duration) (ts : list Target) :
  (healthyCount now timeout ts <= length ts)%nat.
Proof. unfold healthyCount. apply List.filter_length_le. Qed.

(** What a [reconcile] run that returned no error did: it resolved the
    targets of the owned policy, then set both counters from them and chose
    the result from [minDuration] of the not-yet-decidable times. *)
Lemma reconcile_success (w : World) (cluster : Cluster) (m : MachineHealthCheck)
    (s : RState) :
  let '((res, err, m'), _) := reconcile w cluster m s in
  err = None ->
  exists ts,
    w_getTargets w (ownedBy cluster m) = inr ts
    /\ st_expectedMachines (mhc_status m') = int32 (Z.of_nat (length ts))
    /\ st_currentHealthy (mhc_status m')
         = int32 (Z.of_nat (healthyCount (w_now w) (startupTimeout m) ts))
    /\ res = (if 0 <? minDuration (nextChecks (w_now w) (startupTimeout m) ts)
              then {| requeue := false;
                      requeueAfter := minDuration (nextChecks (w_now w) (startupTimeout m) ts) |}
              else EmptyResult).
Proof.
  destruct (reconcile w cluster m s) as [[[res err] m'] s'] eqn:Hr.
  intros ->. revert Hr. unfold reconcile, bind, emit, ret.
  destruct (w_newClusterClient w cluster); [by intros [=] |].
  destruct (watchClusterNodes w cluster _) as [[e |] s1]; [by intros [=] |].
  fold (ownedBy cluster m).
  destruct (w_getTargets w (ownedBy cluster m)) as [e | ts]; [by intros [=] |].
  pose proof (healthCheckTargets_counts (w_now w) (startupTimeout m) ts) as Hc.
  unfold startupTimeout in Hc. simpl.
  destruct (healthCheckTargets (w_now w) _ ts) as [[h rem] next].
  destruct Hc as [-> ->].
  intros Hr. exists ts. split; [done |].
  unfold startupTimeout.
  destruct (0 <? minDuration _); injection Hr as <- <- <-; done.
Qed.

Lemma fold_min_bounds (l : list Z) (d : Z) :
  fold_left Z.min l d <= d /\ (forall x, In x l -> fold_left Z.min l d <= x)
  /\ (fold_left Z.min l d = d \/ In (fold_left Z.min l d) l).
Proof.
  revert d. induction l as [| y l IH]; intros d; simpl.
  - split; [lia | split; [tauto | by left]].
  - destruct (IH (Z.min d y)) as [H1 [H2 H3]].
    split; [lia |]. split.
    + intros x [<- | Hx]; [lia | by apply H2].
    + destruct H3 as [H3 | H3]; [| by right; right].
      rewrite H3. destruct (Z.min_spec d y) as [[_ ->] | [_ ->]]; [by left | by right; left].
Qed.

(** [minDuration] is the least positive element, when there is one. *)
Lemma minDuration_positive (ds : list Duration) :
  (exists d, In d ds /\ 0 < d) ->
  In (minDuration ds) ds /\ 0 < minDuration ds
  /\ (forall d', In d' ds -> 0 < d' -> minDuration ds <= d').
Proof.
  intros [d [Hin Hpos]]. unfold minDuration.
  assert (Hf : forall x, In x (List.filter (fun d => 0 <? d) ds) <-> In x ds /\ 0 < x).
  { intros x. rewrite filter_In, Z.ltb_lt. done. }
  destruct (List.filter (fun d => 0 <? d) ds) as [| d0 rest] eqn:Hl.
  { exfalso. apply (proj2 (Hf d)). by split. }
  destruct (fold_min_bounds rest d0) as [H1 [H2 H3]].
  assert (Hd0 : In d0 ds /\ 0 < d0) by (apply Hf; left; done).
  split; [| split].
  - destruct H3 as [-> | H3]; [tauto |]. apply Hf. by right.
  - destruct H3 as [-> | H3]; [tauto |]. apply (proj2 (proj1 (Hf _) (or_intror H3))).
  - intros d' Hd' Hp'. destruct (proj2 (Hf d') (conj Hd' Hp')) as [<- | Hr]; [lia |].
    by apply H2.
Qed.

Lemma minDuration_nonpositive (ds : list Duration) :
  (forall d, In d ds -> d <= 0) -> minDuration ds = 0.
Proof.
  intros H. unfold minDuration.
  destruct (List.filter (fun d => 0 <? d) ds) as [| d0 rest] eqn:Hl; [done |].
  exfalso. assert (Hin : In d0 (List.filter (fun d => 0 <? d) ds)) by (rewrite Hl; left; done).
  apply filter_In in Hin as [Hin Hp]. apply Z.ltb_lt in Hp. specialize (H d0 Hin). lia.
Qed.

(** Every remaining time of a not-yet-decidable target is positive: a
    target is not yet decidable only while its age (or the elapsed time of
    its matching condition) is below the timeout. *)
Lemma nextChecks_positive (now : Z) (timeout : Duration) (ts : list Target) :
  forall d, In d (nextChecks now timeout ts) -> 0 < d.
Proof.
  unfold nextChecks. intros d Hd.
  apply list_elem_of_In, list_elem_of_omap in Hd as [t [Ht Hd]].
  revert Hd. unfold evaluateTarget.
  destruct (t_node t) as [n |].
  - destruct (firstMatchingRule _ n) as [[uc c] |]; [| done].
    destruct (uc_timeout uc <=? _) eqn:Hle; [done |].
    apply Z.leb_gt in Hle. intros [= <-]. lia.
  - destruct (timeout <=? _) eqn:Hle; [done |].
    apply Z.leb_gt in Hle. intros [= <-]. lia.
Qed.

(** C4: after a [reconcile] run that returned no error, when the
    not-yet-decidable remaining times of the pass are non-empty, the result
    requeues after their minimum, which is positive; when they are empty,
    no requeue is scheduled. *)
Theorem reconcile_requeue_after_min (w : World) (cluster : Cluster)
    (m : MachineHealthCheck) (s : RState) res err m' s' ts :
  reconcile w cluster m s = ((res, err, m'), s') -> err = None ->
  w_getTargets w (ownedBy cluster m) = inr ts ->
  let ds := nextChecks (w_now w) (startupTimeout m) ts in
  (ds <> [] ->
     exists d, In d ds /\ 0 < d /\ (forall d', In d' ds -> d <= d')
       /\ res = {| requeue := false; requeueAfter := d |})
  /\ (ds = [] -> res = EmptyResult).
Proof.
  intros Hr Herr Hts ds.
  pose proof (reconcile_success w cluster m s) as Hs. rewrite Hr in Hs.
  destruct (Hs Herr) as [ts' [Hts' [_ [_ Hres]]]].
  rewrite Hts in Hts'. injection Hts' as <-. fold ds in Hres.
  pose proof (nextChecks_positive (w_now w) (startupTimeout m) ts) as Hp. fold ds in Hp.
  split.
  - intros Hne. destruct ds as [| d0 ds'] eqn:Hds; [done |].
    rewrite <- Hds in *.
    assert (Hpos : exists d, In d ds /\ 0 < d).
    { exists d0. split; [rewrite Hds; by left | apply Hp; rewrite Hds; by left]. }
    destruct (minDuration_positive ds Hpos) as [H1 [H2 H3]].
    exists (minDuration ds). split; [done | split; [done | split]].
    + intros d' Hd'. apply H3; [done | by apply Hp].
    + rewrite Hres. apply Z.ltb_lt in H2. by rewrite H2.
  - intros Hnil. rewrite Hres, Hnil. reflexivity.
Qed.

Lemma int32_small (x : Z) : 0 <= x < 2^31 -> int32 x = x.
Proof.
  intros Hx. unfold int32. rewrite Z.mod_small; lia.
Qed.

(** C5 (amended): after a [reconcile] run that returned no error, the
    status holds the int32 conversions of the number of resolved targets
    and of the number of targets classified healthy, and the healthy count
    never exceeds the target count; with fewer than 2^31 targets the
    conversions are exact, so expected = targets, current-healthy = healthy
    targets and current-healthy <= expected. *)
Theorem reconcile_status_counts (w : World) (cluster : Cluster)
    (m : MachineHealthCheck) (s : RState) res err m' s' ts :
  reconcile w cluster m s = ((res, err, m'), s') -> err = None ->
  w_getTargets w (ownedBy cluster m) = inr ts ->
  let healthy := healthyCount (w_now w) (startupTimeout m) ts in
  st_expectedMachines (mhc_status m') = int32 (Z.of_nat (length ts))
  /\ st_currentHealthy (mhc_status m') = int32 (Z.of_nat healthy)
  /\ (healthy <= length ts)%nat
  /\ (Z.of_nat (length ts) < 2^31 ->
        st_expectedMachines (mhc_status m') = Z.of_nat (length ts)
        /\ st_currentHealthy (mhc_status m') = Z.of_nat healthy
        /\ st_currentHealthy (mhc_status m') <= st_expectedMachines (mhc_status m')).
Proof.
  intros Hr Herr Hts healthy.
  pose proof (reconcile_success w cluster m s) as Hs. rewrite Hr in Hs.
  destruct (Hs Herr) as [ts' [Hts' [He [Hh _]]]].
  rewrite Hts in Hts'. injection Hts' as <-. fold healthy in Hh.
  pose proof (healthyCount_le (w_now w) (startupTimeout m) ts) as Hle. fold healthy in Hle.
  split; [done | split; [done | split; [done |]]].
  intros Hsmall. rewrite He, Hh, !int32_small by lia. split; [done | split; [done | lia]].
Qed.

(** Every call succeeds in [okWorld], so [reconcile] returns no error there,
    whatever the targets. *)
Lemma okWorld_reconcile_ok (ts : list Target) (cluster : Cluster)
    (m : MachineHealthCheck) (s : RState) :
  snd (fst (fst (reconcile (okWorld ts) cluster m s))) = None.
Proof.
  unfold reconcile, bind, emit, ret.
  change (w_newClusterClient (okWorld ts) cluster) with (@None error).
  cbv iota beta.
  destruct (watchClusterNodes (okWorld ts) cluster _) as [e s1] eqn:Hw.
  assert (e = None) as ->.
  { revert Hw. unfold_watch. destruct (registered _ _); [by intros [= <-] |].
    by intros [= <-]. }
  change (w_getTargets (okWorld ts) _) with (@inr error (list Target) ts).
  cbv iota beta.
  destruct (healthCheckTargets _ _ ts) as [[h rem] next].
  by destruct (0 <? minDuration next).
Qed.

(** C5 as stated fails: the status fields are int32, so a pass resolving
    2^31 targets (all healthy) stores expected = -2^31, not 2^31. *)
Lemma reconcile_status_counterexample :
  ~ (forall (w : World) (cluster : Cluster) (m : MachineHealthCheck) (s : RState)
            res err m' s' ts,
       reconcile w cluster m s = ((res, err, m'), s') -> err = None ->
       w_getTargets w (ownedBy cluster m) = inr ts ->
       let healthy := healthyCount (w_now w) (startupTimeout m) ts in
       st_expectedMachines (mhc_status m') = Z.of_nat (length ts)
       /\ st_currentHealthy (mhc_status m') = Z.of_nat healthy
       /\ st_currentHealthy (mhc_status m') <= st_expectedMachines (mhc_status m')).
Proof.
  intros H.
  pose proof (okWorld_reconcile_ok manyTargets cluster0 mhc0 s0) as Hok.
  destruct (reconcile (okWorld manyTargets) cluster0 mhc0 s0)
    as [[[res err] m'] s'] eqn:Hr.
  simpl in Hok.
  destruct (H _ _ _ _ _ _ _ _ manyTargets Hr Hok eq_refl) as [Hclaim _].
  destruct (reconcile_status_counts _ _ _ _ _ _ _ _ manyTargets Hr Hok eq_refl)
    as [Hcode _].
  rewrite Hcode in Hclaim. revert Hclaim.
  unfold manyTargets. rewrite repeat_length, Z2Nat.id by lia.
  vm_compute. discriminate.
Qed.

(* ----------------------------------------------------------------- *)
(** ** Concurrent invocations of watchClusterNodes *)

(** The step model is faithful: one invocation run alone is
    [watchClusterNodes]. *)
Lemma runWatch_watchClusterNodes (w : World) (cluster : Cluster) (s : RState) :
  runWatch w cluster 6 WStart s =
    let '(r, s') := watchClusterNodes w cluster s in (WDone r, s').
Proof.
  unfold runWatch, watchStep, watchClusterNodes, bind, ret, emit,
    get_informers, put_informers; cbn.
  destruct (registered (clusterKey cluster) (clusterNodeInformers s)); [done |].
  destruct (w_restConfig w cluster); [done |].
  destruct (w_newForConfig w cluster); [done |].
  destruct (w_controllerWatch w (clusterKey cluster)); done.
Qed.

Lemma informersStarted_app (key : NamespacedName) (l1 l2 : list Event) :
  informersStarted key (l1 ++ l2) = (informersStarted key l1 + informersStarted key l2)%nat.
Proof. unfold informersStarted. by rewrite List.filter_app, length_app. Qed.

Lemma informersStarted_run (key : NamespacedName) :
  informersStarted key [EvInformerRun key] = 1%nat.
Proof. unfold informersStarted. simpl. by rewrite bool_decide_eq_true_2. Qed.

Lemma informersStarted_watch (key : NamespacedName) :
  informersStarted key [EvControllerWatch key] = 0%nat.
Proof. reflexivity. Qed.

Lemma interleave_true w c1 c2 sched p1 p2 s :
  interleave w c1 c2 (true :: sched) p1 p2 s =
    let (p1', s') := watchStep w c1 p1 s in interleave w c1 c2 sched p1' p2 s'.
Proof. reflexivity. Qed.

Lemma interleave_false w c1 c2 sched p1 p2 s :
  interleave w c1 c2 (false :: sched) p1 p2 s =
    let (p2', s') := watchStep w c2 p2 s in interleave w c1 c2 sched p1 p2' s'.
Proof. reflexivity. Qed.

Lemma watchStep_WStart_fresh w cluster s :
  registered (clusterKey cluster) (clusterNodeInformers s) = false ->
  watchStep w cluster WStart s = (WChecked, s).
Proof. intros Hr. unfold watchStep, bind, get_informers. simpl. by rewrite Hr. Qed.

Lemma watchStep_WChecked w cluster s :
  w_restConfig w cluster = None -> watchStep w cluster WChecked s = (WConfigured, s).
Proof. intros H. unfold watchStep. by rewrite H. Qed.

Lemma watchStep_WConfigured w cluster s :
  w_newForConfig w cluster = None -> watchStep w cluster WConfigured s = (WClientBuilt, s).
Proof. intros H. unfold watchStep. by rewrite H. Qed.

Lemma watchStep_WClientBuilt w cluster s :
  watchStep w cluster WClientBuilt s =
    (WRunning, {| clusterNodeInformers := clusterNodeInformers s;
                  trace := trace s ++ [EvInformerRun (clusterKey cluster)] |}).
Proof. reflexivity. Qed.

Lemma watchStep_WRunning w cluster s :
  w_controllerWatch w (clusterKey cluster) = None ->
  watchStep w cluster WRunning s =
    (WWatched, {| clusterNodeInformers := clusterNodeInformers s;
                  trace := trace s ++ [EvControllerWatch (clusterKey cluster)] |}).
Proof. intros H. unfold watchStep, bind, emit, ret. by rewrite H. Qed.

Lemma watchStep_WWatched w cluster s :
  watchStep w cluster WWatched s =
    (WDone None,
     {| clusterNodeInformers :=
          Some (<[clusterKey cluster := NodeInformer (clusterKey cluster)]>
                  (match clusterNodeInformers s with Some reg => reg | None => ∅ end));
        trace := trace s |}).
Proof. reflexivity. Qed.

Lemma interleave_fst_done w c1 c2 sched r p2 s :
  fst (fst (interleave w c1 c2 sched (WDone r) p2 s)) = WDone r.
Proof.
  revert p2 s. induction sched as [| [] sched IH]; intros p2 s; [done | |].
  - rewrite interleave_true. apply IH.
  - rewrite interleave_false. destruct (watchStep w c2 p2 s). apply IH.
Qed.

Lemma interleave_snd_done w c1 c2 sched p1 r s :
  snd (fst (interleave w c1 c2 sched p1 (WDone r) s)) = WDone r.
Proof.
  revert p1 s. induction sched as [| [] sched IH]; intros p1 s; [done | |].
  - rewrite interleave_true. destruct (watchStep w c1 p1 s). apply IH.
  - rewrite interleave_false. apply IH.
Qed.

(** One step of an invocation that does not finish, while the key is not
    registered: the registry is unchanged and an informer started is one
    fewer still to start. *)
Lemma watchStep_before_insert w cluster p s :
  let key := clusterKey cluster in
  registered key (clusterNodeInformers s) = false ->
  let '(p', s') := watchStep w cluster p s in
  phaseDone p' = false ->
  clusterNodeInformers s' = clusterNodeInformers s
  /\ (informersStarted key (trace s') + pendingStarts p'
      = informersStarted key (trace s) + pendingStarts p)%nat.
Proof.
  intros key Hr. subst key.
  destruct p; unfold watchStep, bind, get_informers, emit, ret; simpl.
  - rewrite Hr. done.
  - destruct (w_restConfig w cluster); done.
  - destruct (w_newForConfig w cluster); done.
  - intros _. split; [done |]. rewrite informersStarted_app, informersStarted_run. lia.
  - destruct (w_controllerWatch w (clusterKey cluster)); [intros [=] |].
    intros _. split; [done |]. simpl.
    rewrite informersStarted_app, informersStarted_watch. lia.
  - intros [=].
  - intros [=].
Qed.

(** A schedule after which neither invocation has finished left the
    registry without the key and kept started + still-to-start constant. *)
Lemma interleave_before_insert w cluster sched p1 p2 s q1 q2 s1 :
  let key := clusterKey cluster in
  registered key (clusterNodeInformers s) = false ->
  interleave w cluster cluster sched p1 p2 s = ((q1, q2), s1) ->
  phaseDone q1 = false -> phaseDone q2 = false ->
  registered key (clusterNodeInformers s1) = false
  /\ (informersStarted key (trace s1) + pendingStarts q1 + pendingStarts q2
      = informersStarted key (trace s) + pendingStarts p1 + pendingStarts p2)%nat.
Proof.
  intros key. revert p1 p2 s.
  induction sched as [| [] sched IH]; intros p1 p2 s Hr Hi Hd1 Hd2.
  - injection Hi as <- <- <-. done.
  - rewrite interleave_true in Hi.
    pose proof (watchStep_before_insert w cluster p1 s Hr) as Hs.
    destruct (watchStep w cluster p1 s) as [p1' s'].
    destruct (phaseDone p1') eqn:Hd.
    { destruct p1'; try discriminate.
      pose proof (interleave_fst_done w cluster cluster sched r p2 s') as Hf.
      rewrite Hi in Hf. simpl in Hf. subst q1. discriminate. }
    destruct (Hs eq_refl) as [Hreg Hcnt]. fold key in Hreg, Hcnt.
    assert (Hr' : registered key (clusterNodeInformers s') = false) by (by rewrite Hreg).
    destruct (IH p1' p2 s' Hr' Hi Hd1 Hd2) as [H1 H2]. split; [done | lia].
  - rewrite interleave_false in Hi.
    pose proof (watchStep_before_insert w cluster p2 s Hr) as Hs.
    destruct (watchStep w cluster p2 s) as [p2' s'].
    destruct (phaseDone p2') eqn:Hd.
    { destruct p2'; try discriminate.
      pose proof (interleave_snd_done w cluster cluster sched p1 r s') as Hf.
      rewrite Hi in Hf. simpl in Hf. subst q2. discriminate. }
    destruct (Hs eq_refl) as [Hreg Hcnt]. fold key in Hreg, Hcnt.
    assert (Hr' : registered key (clusterNodeInformers s') = false) by (by rewrite Hreg).
    destruct (IH p1 p2' s' Hr' Hi Hd1 Hd2) as [H1 H2]. split; [done | lia].
Qed.

(** Phases an invocation can be in once it has checked the registry, when
    every remote call succeeds. *)
Definition pastCheck (p : WPhase) : bool :=
  match p with WStart | WDone (Some _) => false | _ => true end.

Section AllCallsSucceed.
Variables (w : World) (cluster : Cluster).
Hypothesis Hc : w_restConfig w cluster = None.
Hypothesis Hn : w_newForConfig w cluster = None.
Hypothesis Hw : w_controllerWatch w (clusterKey cluster) = None.

Lemma watchStep_past_check p s :
  let key := clusterKey cluster in
  pastCheck p = true ->
  let '(p', s') := watchStep w cluster p s in
  pastCheck p' = true
  /\ (informersStarted key (trace s') + pendingStarts p'
      = informersStarted key (trace s) + pendingStarts p)%nat.
Proof.
  intros key Hp. destruct p; try discriminate.
  - rewrite (watchStep_WChecked w cluster s Hc). done.
  - rewrite (watchStep_WConfigured w cluster s Hn). done.
  - rewrite watchStep_WClientBuilt. simpl. split; [done |].
    rewrite informersStarted_app, informersStarted_run. lia.
  - rewrite (watchStep_WRunning w cluster s Hw). simpl. split; [done |].
    rewrite informersStarted_app, informersStarted_watch. lia.
  - rewrite watchStep_WWatched. done.
  - destruct r; [discriminate |]. done.
Qed.

Lemma interleave_past_check sched p1 p2 s q1 q2 s2 :
  let key := clusterKey cluster in
  pastCheck p1 = true -> pastCheck p2 = true ->
  interleave w cluster cluster sched p1 p2 s = ((q1, q2), s2) ->
  pastCheck q1 = true /\ pastCheck q2 = true
  /\ (informersStarted key (trace s2) + pendingStarts q1 + pendingStarts q2
      = informersStarted key (trace s) + pendingStarts p1 + pendingStarts p2)%nat.
Proof.
  intros key. revert p1 p2 s.
  induction sched as [| [] sched IH]; intros p1 p2 s H1 H2 Hi.
  - injection Hi as <- <- <-. done.
  - rewrite interleave_true in Hi.
    pose proof (watchStep_past_check p1 s H1) as Hs.
    destruct (watchStep w cluster p1 s) as [p1' s']. destruct Hs as [Hp Hcnt].
    destruct (IH p1' p2 s' Hp H2 Hi) as [? [? ?]]. fold key in Hcnt.
    repeat split; [done | done | lia].
  - rewrite interleave_false in Hi.
    pose proof (watchStep_past_check p2 s H2) as Hs.
    destruct (watchStep w cluster p2 s) as [p2' s']. destruct Hs as [Hp Hcnt].
    destruct (IH p1 p2' s' H1 Hp Hi) as [? [? ?]]. fold key in Hcnt.
    repeat split; [done | done | lia].
Qed.

End AllCallsSucceed.

(** C8 (amended): the registry's check and insert are separate steps with
    no lock between them.  For a cluster with no watch registered yet and
    a remote config, client and Watch that all succeed: two invocations run
    one after the other start one informer, but in every concurrent run in
    which both invocations have checked the registry before either has
    registered its watch, once both finish each has started an informer
    (two informers for the same key) and both returned success. *)
Theorem watchClusterNodes_unguarded (w : World) (cluster : Cluster) (s : RState) :
  registered (clusterKey cluster) (clusterNodeInformers s) = false ->
  w_restConfig w cluster = None -> w_newForConfig w cluster = None ->
  w_controllerWatch w (clusterKey cluster) = None ->
  let key := clusterKey cluster in
  (let '(_, s1) := watchClusterNodes w cluster s in
   let '(_, s2) := watchClusterNodes w cluster s1 in
   informersStarted key (trace s2) = S (informersStarted key (trace s)))
  /\ (forall sched1 sched2 p1 p2 s1 q1 q2 s2,
        interleave w cluster cluster sched1 WStart WStart s = ((p1, p2), s1) ->
        checkedPending p1 = true -> checkedPending p2 = true ->
        interleave w cluster cluster sched2 p1 p2 s1 = ((q1, q2), s2) ->
        phaseDone q1 = true -> phaseDone q2 = true ->
        q1 = WDone None /\ q2 = WDone None
        /\ informersStarted key (trace s2) = (2 + informersStarted key (trace s))%nat).
Proof.
  intros Hr Hc Hn Hw key. split.
  - destruct (watchClusterNodes w cluster s) as [e1 s1] eqn:Hw1.
    assert (Hs1 : e1 = None /\ trace s1 = trace s ++ [EvInformerRun key; EvControllerWatch key]
                  /\ registered key (clusterNodeInformers s1) = true).
    { revert Hw1. unfold_watch. rewrite Hr, Hc, Hn, Hw. intros [= <- <-]. simpl.
      rewrite <- app_assoc. split; [done | split; [done |]]. apply registered_insert. }
    destruct Hs1 as [_ [Ht1 Hr1]].
    rewrite (watchClusterNodes_registered w cluster s1 Hr1).
    rewrite Ht1, informersStarted_app. change [EvInformerRun key; EvControllerWatch key]
      with ([EvInformerRun key] ++ [EvControllerWatch key]).
    rewrite informersStarted_app, informersStarted_run, informersStarted_watch. lia.
  - intros sched1 sched2 p1 p2 s1 q1 q2 s2 Hi1 Hp1 Hp2 Hi2 Hd1 Hd2.
    assert (Hnd : forall p, checkedPending p = true -> phaseDone p = false)
      by (intros []; done).
    assert (Hpc : forall p, checkedPending p = true -> pastCheck p = true)
      by (intros []; done).
    destruct (interleave_before_insert w cluster sched1 WStart WStart s p1 p2 s1
                Hr Hi1 (Hnd _ Hp1) (Hnd _ Hp2)) as [_ Hcnt1].
    destruct (interleave_past_check w cluster Hc Hn Hw sched2 p1 p2 s1 q1 q2 s2
                (Hpc _ Hp1) (Hpc _ Hp2) Hi2) as [Hq1 [Hq2 Hcnt2]].
    fold key in Hcnt1, Hcnt2. simpl in Hcnt1.
    destruct q1 as [| | | | | | [e |]]; try discriminate.
    destruct q2 as [| | | | | | [e |]]; try discriminate.
    simpl in Hcnt2. split; [done | split; [done | lia]].
Qed.

(** C8 as stated fails: with no lock, the schedule [bothCheckFirst] lets
    two invocations for cluster "c1" both find no watch registered, and both
    start a node informer. *)
Lemma watchClusterNodes_race_counterexample :
  ~ (forall (w : World) (cluster : Cluster) (sched : list bool) (s s' : RState)
            (p1 p2 : WPhase),
       registered (clusterKey cluster) (clusterNodeInformers s) = false ->
       interleave w cluster cluster sched WStart WStart s = ((p1, p2), s') ->
       p1 = WDone None -> p2 = WDone None ->
       informersStarted (clusterKey cluster) (trace s')
         = S (informersStarted (clusterKey cluster) (trace s))).
Proof.
  intros H.
  destruct (interleave (okWorld []) cluster0 cluster0 bothCheckFirst WStart WStart s0)
    as [[p1 p2] s'] eqn:Hi.
  assert (Hp : p1 = WDone None /\ p2 = WDone None
               /\ informersStarted (clusterKey cluster0) (trace s') = 2%nat).
  { revert Hi. vm_compute. intros [= <- <- <-]. done. }
  destruct Hp as [Hp1 [Hp2 Hn]].
  assert (Hr : registered (clusterKey cluster0) (clusterNodeInformers s0) = false)
    by reflexivity.
  specialize (H _ _ _ _ _ _ _ Hr Hi Hp1 Hp2). rewrite Hn in H.
  vm_compute in H. discriminate.
Qed.

(* ----------------------------------------------------------------- *)
(** ** The deferred patch, as first stated *)

(** C1 as stated fails: the policy is fetched and the pass is not paused,
    but the patch helper cannot be built; [Reconcile] returns that error
    before the deferred patch is registered, and nothing is patched. *)
Lemma Reconcile_no_patch_counterexample :
  ~ (forall (w : World) (req : NamespacedName) (s : RState) (m : MachineHealthCheck),
       w_getMHC w req = inr m ->
       (forall cluster, w_getCluster w {| nn_namespace := mhc_namespace m;
                                          nn_name := spec_clusterName (mhc_spec m) |}
                          = inr cluster -> IsPaused cluster m = false) ->
       patchCount (trace (snd (Reconcile w req s))) = S (patchCount (trace s))).
Proof.
  intros H.
  assert (Hnp : forall cluster,
             w_getCluster helperFailsWorld
               {| nn_namespace := mhc_namespace mhc0;
                  nn_name := spec_clusterName (mhc_spec mhc0) |} = inr cluster ->
             IsPaused cluster mhc0 = false).
  { intros c [= <-]. reflexivity. }
  specialize (H helperFailsWorld req0 s0 mhc0 eq_refl Hnp).
  vm_compute in H. discriminate.
Qed.

(* ----------------------------------------------------------------- *)
(** ** Witnesses *)

Lemma hasMatchingLabels_empty_or_invalid_witness :
  ls_matchLabels (spec_selector (mhc_spec (mhcWithSelector emptySelector))) = []
  /\ hasMatchingLabels (mhcWithSelector emptySelector) (machineWithNode "default" "m1" "n1")
     = false.
Proof.
  split; [reflexivity |].
  apply (hasMatchingLabels_empty_or_invalid (mhcWithSelector emptySelector)).
  left. split; reflexivity.
Defined.

Lemma getMachineFromNode_across_namespaces_witness :
  In (machineWithNode "default" "m1" "n1") (store_machines store2)
  /\ (exists err, getMachineFromNode store2 "n1" = inl err).
Proof.
  split; [simpl; left; reflexivity |].
  apply (getMachineFromNode_across_namespaces store2 "n1"
           (machineWithNode "default" "m1" "n1") (machineWithNode "team-b" "m1" "n1")).
  - simpl. left. reflexivity.
  - simpl. right. left. reflexivity.
  - simpl. discriminate.
  - reflexivity.
  - reflexivity.
Defined.

Lemma Reconcile_paused_witness :
  IsPaused clusterPaused mhc0 = true
  /\ Reconcile pausedWorld req0 s0 = ((EmptyResult, None), s0).
Proof.
  split; [reflexivity |].
  apply (Reconcile_paused pausedWorld req0 s0 mhc0 clusterPaused);
    reflexivity.
Defined.

Lemma watchClusterNodes_same_name_witness :
  c_namespace cluster0 <> c_namespace cluster0'
  /\ clusterKey cluster0 = clusterKey cluster0'.
Proof.
  split; [simpl; discriminate |].
  apply (watchClusterNodes_same_name (okWorld []) cluster0 cluster0' s0).
  reflexivity.
Defined.

Lemma Reconcile_deferred_patch_witness :
  w_getMHC patchFailsWorld req0 = inr mhc0
  /\ snd (fst (Reconcile patchFailsWorld req0 s0))
     = Some (ErrAggregate [ErrMsg "no kubeconfig"; ErrMsg "conflict"]).
Proof.
  split; [reflexivity |].
  destruct (Reconcile_deferred_patch patchFailsWorld req0 s0 mhc0 eq_refl)
    as [_ [_ H3]].
  specialize (H3 cluster0 eq_refl eq_refl eq_refl).
  destruct (reconcileBody patchFailsWorld cluster0 mhc0 s0)
    as [[[res reterr] m'] s1] eqn:Hb.
  assert (Hre : reterr = Some (ErrMsg "no kubeconfig")).
  { revert Hb. vm_compute. intros [= _ <- _ _]. reflexivity. }
  destruct H3 as [_ ->]. simpl. rewrite Hre. reflexivity.
Defined.

Lemma reconcile_requeue_after_min_witness :
  let '((res, err, _), _) :=
    reconcile (okWorld [targetHealthy; targetYoung]) cluster0 mhc0 s0 in
  err = None
  /\ res = {| requeue := false; requeueAfter := 5 * Minute |}.
Proof.
  destruct (reconcile (okWorld [targetHealthy; targetYoung]) cluster0 mhc0 s0)
    as [[[res err] m'] s'] eqn:Hr.
  assert (Herr : err = None) by (revert Hr; vm_compute; intros [= _ <- _ _]; reflexivity).
  split; [exact Herr |].
  destruct (reconcile_requeue_after_min _ _ _ _ res err m' s'
              [targetHealthy; targetYoung] Hr Herr eq_refl) as [Hne _].
  destruct Hne as [d [Hin [Hd [Hmin ->]]]].
  - vm_compute. discriminate.
  - revert Hin. vm_compute. intros [<- | []]. reflexivity.
Defined.

Lemma reconcile_status_counts_witness :
  let '((_, err, m'), _) :=
    reconcile (okWorld [targetHealthy; targetPending]) cluster0 mhc0 s0 in
  err = None
  /\ st_expectedMachines (mhc_status m') = 2
  /\ st_currentHealthy (mhc_status m') = 1.
Proof.
  destruct (reconcile (okWorld [targetHealthy; targetPending]) cluster0 mhc0 s0)
    as [[[res err] m'] s'] eqn:Hr.
  assert (Herr : err = None) by (revert Hr; vm_compute; intros [= _ <- _ _]; reflexivity).
  split; [exact Herr |].
  destruct (reconcile_status_counts _ _ _ _ res err m' s'
              [targetHealthy; targetPending] Hr Herr eq_refl) as [_ [_ [_ Hsmall]]].
  destruct Hsmall as [He [Hh _]]; [simpl; lia |].
  rewrite He, Hh. split; reflexivity.
Defined.

Lemma watchClusterNodes_unguarded_witness :
  let '(_, s2) := interleave (okWorld []) cluster0 cluster0 (skipn 2 bothCheckFirst)
                    WChecked WChecked s0 in
  informersStarted (clusterKey cluster0) (trace s2) = 2%nat.
Proof.
  pose proof (watchClusterNodes_unguarded (okWorld []) cluster0 s0
                eq_refl eq_refl eq_refl eq_refl) as [_ H].
  destruct (interleave (okWorld []) cluster0 cluster0 (skipn 2 bothCheckFirst)
              WChecked WChecked s0) as [[q1 q2] s2] eqn:E.
  destruct (H [true; false] (skipn 2 bothCheckFirst) WChecked WChecked s0 q1 q2 s2
              eq_refl eq_refl eq_refl E) as [_ [_ Hn]].
  - revert E. vm_compute. intros [= <- _ _]. reflexivity.
  - revert E. vm_compute. intros [= _ <- _]. reflexivity.
  - exact Hn.
Defined.

(* ================================================================= *)
(** * Further properties of the controller *)

(* ----------------------------------------------------------------- *)
(** ** Fetching the policy *)

(** A policy that is not found ends the pass with success and no requeue;
    any other fetch error is returned; in both cases nothing else happens. *)
Theorem Reconcile_fetch_error (w : World) (req : NamespacedName) (s : RState)
    (err : error) :
  w_getMHC w req = inl err ->
  Reconcile w req s
    = ((EmptyResult, if IsNotFound err then None else Some err), s).
Proof.
  intros H. unfold Reconcile. rewrite H. by destruct (IsNotFound err).
Qed.

Lemma Reconcile_fetch_error_witness :
  Reconcile notFoundWorld req0 s0 = ((EmptyResult, None), s0).
Proof.
  exact (Reconcile_fetch_error notFoundWorld req0 s0
           (ErrNotFound "machinehealthcheck") eq_refl).
Defined.

(* ----------------------------------------------------------------- *)
(** ** Event routing *)

Lemma listMHCsByClusterName_spec (st : Store) (ns v : string) :
  store_listMHCsErr st = None ->
  exists l, listMHCsByClusterName st ns v = inr l
    /\ forall h, In h l <-> In h (store_mhcs st) /\ inNamespace ns (mhc_namespace h) = true
                           /\ spec_clusterName (mhc_spec h) = v.
Proof.
  intros Hok. unfold listMHCsByClusterName. rewrite Hok. eexists. split; [done |].
  intros h. rewrite filter_In, andb_true_iff. simpl.
  rewrite orb_false_r, String.eqb_eq. split; intros [? [? ?]]; auto.
Qed.

(** A Cluster event yields one request per MachineHealthCheck of the
    cluster's namespace whose spec.clusterName is the cluster's name. *)
Theorem clusterToMachineHealthCheck_spec (st : Store) (c : Cluster) :
  store_listMHCsErr st = None ->
  forall r, In r (clusterToMachineHealthCheck st (ObjCluster c))
    <-> exists h, In h (store_mhcs st) /\ inNamespace (c_namespace c) (mhc_namespace h) = true
                  /\ spec_clusterName (mhc_spec h) = c_name c /\ r = mhcRequest h.
Proof.
  intros Hok r. unfold clusterToMachineHealthCheck.
  destruct (listMHCsByClusterName_spec st (c_namespace c) (c_name c) Hok) as [l [-> Hl]].
  rewrite in_map_iff. split.
  - intros [h [<- Hh]]. exists h. apply Hl in Hh as [? [? ?]]. done.
  - intros [h [? [? [? ->]]]]. exists h. split; [done |]. by apply Hl.
Qed.

Lemma clusterToMachineHealthCheck_spec_witness :
  In req0 (clusterToMachineHealthCheck store2 (ObjCluster cluster0)).
Proof.
  apply (clusterToMachineHealthCheck_spec store2 cluster0 eq_refl).
  exists mhc0. split; [simpl; left; reflexivity |].
  split; [reflexivity | split; reflexivity].
Defined.

(** A Machine event yields one request per MachineHealthCheck of the
    machine's namespace, for the machine's cluster, whose selector matches
    the machine. *)
Theorem machineToMachineHealthCheck_spec (st : Store) (m : Machine) :
  store_listMHCsErr st = None ->
  forall r, In r (machineToMachineHealthCheck st (ObjMachine m))
    <-> exists h, In h (store_mhcs st) /\ inNamespace (mc_namespace m) (mhc_namespace h) = true
                  /\ spec_clusterName (mhc_spec h) = mc_clusterName m
                  /\ hasMatchingLabels h m = true /\ r = mhcRequest h.
Proof.
  intros Hok r. unfold machineToMachineHealthCheck.
  destruct (listMHCsByClusterName_spec st (mc_namespace m) (mc_clusterName m) Hok)
    as [l [-> Hl]].
  rewrite in_map_iff. split.
  - intros [h [<- Hh]]. apply filter_In in Hh as [Hh Hm].
    exists h. apply Hl in Hh as [? [? ?]]. done.
  - intros [h [? [? [? [? ->]]]]]. exists h. split; [done |].
    apply filter_In. split; [by apply Hl | done].
Qed.

Lemma machineToMachineHealthCheck_spec_witness :
  In req0 (machineToMachineHealthCheck store2 (ObjMachine (machineWithNode "default" "m1" "n1"))).
Proof.
  apply (machineToMachineHealthCheck_spec store2 _ eq_refl).
  exists mhc0. split; [simpl; left; reflexivity |].
  repeat split; reflexivity.
Defined.

(** A Machine event never enqueues a policy that the event of the
    machine's own Cluster would not enqueue. *)
Theorem machineToMachineHealthCheck_sub_cluster (st : Store) (m : Machine) (c : Cluster) :
  c_namespace c = mc_namespace m -> c_name c = mc_clusterName m ->
  forall r, In r (machineToMachineHealthCheck st (ObjMachine m)) ->
            In r (clusterToMachineHealthCheck st (ObjCluster c)).
Proof.
  intros Hns Hn r. unfold machineToMachineHealthCheck, clusterToMachineHealthCheck.
  rewrite Hns, Hn.
  destruct (listMHCsByClusterName st (mc_namespace m) (mc_clusterName m)) as [e | l];
    [done |].
  rewrite !in_map_iff. intros [h [<- Hh]]. exists h. split; [done |].
  by apply filter_In in Hh as [Hh _].
Qed.

Lemma machineToMachineHealthCheck_sub_cluster_witness :
  In req0 (clusterToMachineHealthCheck store2 (ObjCluster cluster0)).
Proof.
  apply (machineToMachineHealthCheck_sub_cluster store2
           (machineWithNode "default" "m1" "n1") cluster0 eq_refl eq_refl).
  vm_compute. left. reflexivity.
Defined.

(** The machine the node lookup returns is a stored machine whose node
    reference names the node. *)
Theorem getMachineFromNode_sound (st : Store) (n : string) (m : Machine) :
  getMachineFromNode st n = inr m ->
  In m (store_machines st) /\ mc_nodeRef m = Some n.
Proof.
  unfold getMachineFromNode.
  destruct (listMachinesByNodeName st n) as [e | l] eqn:Hl; [done |].
  destruct l as [| m' [| ? ?]]; try done.
  intros [= <-]. apply (listMachinesByNodeName_spec st n [m'] Hl). by left.
Qed.

Lemma getMachineFromNode_sound_witness :
  getMachineFromNode store1 "n1" = inr (machineWithNode "default" "m1" "n1")
  /\ mc_nodeRef (machineWithNode "default" "m1" "n1") = Some "n1".
Proof.
  assert (H : getMachineFromNode store1 "n1" = inr (machineWithNode "default" "m1" "n1"))
    by reflexivity.
  split; [exact H |]. exact (proj2 (getMachineFromNode_sound _ _ _ H)).
Defined.

(* ----------------------------------------------------------------- *)
(** ** Label selectors given by matchLabels *)

Definition validPair (kv : string * string) : Prop :=
  validLabelKey kv.1 = true /\ validLabelValue kv.2 = true.

Lemma addMatchLabels_valid (sel : Selector) (ls : list (string * string)) :
  Forall validPair ls ->
  addMatchLabels sel ls
    = inr (sel ++ map (fun kv => {| rq_key := kv.1; rq_operator := SelEquals;
                                    rq_values := [kv.2] |}) ls).
Proof.
  revert sel. induction ls as [| [k v] ls IH]; intros sel Hv; simpl.
  - by rewrite app_nil_r.
  - inversion Hv as [| ? ? [Hk Hval] Hrest]; subst. simpl in Hk, Hval.
    unfold NewRequirement. rewrite Hk. simpl. rewrite Hval. simpl.
    rewrite IH by done. by rewrite <- app_assoc.
Qed.

(** A selector made of matchLabels only, with valid keys and values,
    matches a machine exactly when the machine carries every listed
    label with the listed value. *)
Theorem hasMatchingLabels_matchLabels (h : MachineHealthCheck) (m : Machine) :
  let ps := spec_selector (mhc_spec h) in
  ls_matchExpressions ps = [] -> ls_matchLabels ps <> [] ->
  Forall validPair (ls_matchLabels ps) ->
  hasMatchingLabels h m = true
    <-> Forall (fun kv => mc_labels m !! kv.1 = Some kv.2) (ls_matchLabels ps).
Proof.
  intros ps He Hne Hv. unfold hasMatchingLabels. fold ps.
  unfold LabelSelectorAsSelector. rewrite He, (addMatchLabels_valid [] _ Hv).
  cbn [app length].
  match goal with |- context [map ?f _] => set (F := f) end.
  replace (Nat.eqb (length (ls_matchLabels ps) + 0) 0) with false
    by (destruct (ls_matchLabels ps); [done | reflexivity]).
  cbn [addMatchExpressions].
  match goal with |- context [selectorEmpty ?x] =>
    replace (selectorEmpty x) with false
      by (unfold F; destruct (ls_matchLabels ps); [done | reflexivity]) end.
  rewrite List.Forall_forall. unfold selectorMatches.
  destruct (forallb (requirementMatches (mc_labels m)) (map F (ls_matchLabels ps))) eqn:Hsm;
    simpl.
  - split; [intros _ | done]. intros kv Hin.
    assert (Hm : requirementMatches (mc_labels m) (F kv) = true).
    { apply (proj1 (forallb_forall _ _) Hsm). apply in_map_iff. by exists kv. }
    unfold requirementMatches in Hm. simpl in Hm.
    destruct (mc_labels m !! kv.1) as [v |]; [| done].
    simpl in Hm. rewrite orb_false_r in Hm. apply String.eqb_eq in Hm. by subst.
  - split; [done |]. intros Hall. exfalso.
    apply Bool.not_true_iff_false in Hsm. apply Hsm.
    apply forallb_forall. intros r Hr. apply in_map_iff in Hr as [kv [<- Hin]].
    unfold requirementMatches. simpl. rewrite (Hall kv Hin). simpl.
    by rewrite String.eqb_refl.
Qed.

Lemma hasMatchingLabels_matchLabels_witness :
  hasMatchingLabels mhc0 (machineWithNode "default" "m1" "n1") = true.
Proof.
  apply (hasMatchingLabels_matchLabels mhc0 (machineWithNode "default" "m1" "n1")
           eq_refl).
  - simpl. discriminate.
  - repeat constructor.
  - repeat constructor.
Defined.

(* ----------------------------------------------------------------- *)
(** ** Owner references *)

Lemma referSameObject_refl (r : OwnerReference) :
  is_Some (parseGroup (or_apiVersion r)) -> referSameObject r r = true.
Proof.
  intros [g Hg]. unfold referSameObject. rewrite Hg. by rewrite !String.eqb_refl.
Qed.

Lemma EnsureOwnerRef_In (refs : list OwnerReference) (ref : OwnerReference) :
  In ref (EnsureOwnerRef refs ref).
Proof.
  induction refs as [| r refs IH]; simpl; [by left |].
  destruct (referSameObject r ref); [by left | by right].
Qed.

(** EnsureOwnerRef puts the reference in the list and keeps every
    reference to another object; for a reference whose apiVersion parses,
    a second call with it changes nothing. *)
Lemma EnsureOwnerRef_spec (refs : list OwnerReference) (ref : OwnerReference) :
  is_Some (parseGroup (or_apiVersion ref)) ->
  In ref (EnsureOwnerRef refs ref)
  /\ (forall r, In r refs -> referSameObject r ref = false -> In r (EnsureOwnerRef refs ref))
  /\ EnsureOwnerRef (EnsureOwnerRef refs ref) ref = EnsureOwnerRef refs ref.
Proof.
  intros Hp. pose proof (referSameObject_refl ref Hp) as Hrefl.
  split; [apply EnsureOwnerRef_In |].
  induction refs as [| r refs [IH2 IH3]]; simpl.
  - rewrite Hrefl. split; [done | reflexivity].
  - destruct (referSameObject r ref) eqn:Hs; simpl.
    + rewrite Hrefl. split; [| reflexivity].
      intros r' [<- | Hin] Hne; [congruence | by right].
    + rewrite Hs, IH3. split; [| reflexivity].
      intros r' [<- | Hin] Hne; [by left | right; auto].
Qed.

(* ----------------------------------------------------------------- *)
(** ** What the pass does to the policy object *)

(** [reconcile] on any path: the returned object is the input with the
    cluster's owner reference ensured; only its status may differ, and
    only once the targets were resolved. *)
Definition sameExceptStatus (cluster : Cluster) (m m' : MachineHealthCheck) : Prop :=
  mhc_namespace m' = mhc_namespace m /\ mhc_name m' = mhc_name m
  /\ mhc_labels m' = mhc_labels m /\ mhc_annotations m' = mhc_annotations m
  /\ mhc_ownerReferences m' = EnsureOwnerRef (mhc_ownerReferences m) (clusterOwnerRef cluster)
  /\ mhc_spec m' = mhc_spec m.

Lemma reconcile_object (w : World) (cluster : Cluster) (m : MachineHealthCheck) (s : RState) :
  let '((_, err, m'), _) := reconcile w cluster m s in
  sameExceptStatus cluster m m' /\ (err <> None -> mhc_status m' = mhc_status m).
Proof.
  destruct (reconcile w cluster m s) as [[[res err] m'] s'] eqn:Hr. revert Hr.
  unfold reconcile, bind, emit, ret.
  destruct (w_newClusterClient w cluster).
  { intros [= _ <- <- _]. by repeat split. }
  destruct (watchClusterNodes w cluster _) as [[e |] s1].
  { intros [= _ <- <- _]. by repeat split. }
  destruct (w_getTargets w _) as [e | ts].
  { intros [= _ <- <- _]. by repeat split. }
  simpl. destruct (healthCheckTargets _ _ ts) as [[h rem] next].
  destruct (0 <? minDuration next); intros [= _ <- <- _];
    (split; [by repeat split | done]).
Qed.

(** A failed [reconcile] pass returns the policy with the status it had:
    the counters are written only after the targets were resolved, and
    then the pass succeeds. *)
Theorem reconcile_error_keeps_status (w : World) (cluster : Cluster)
    (m : MachineHealthCheck) (s : RState) :
  let '((_, err, m'), _) := reconcile w cluster m s in
  err <> None -> mhc_status m' = mhc_status m.
Proof.
  pose proof (reconcile_object w cluster m s) as H.
  destruct (reconcile w cluster m s) as [[[res err] m'] s']. apply H.
Qed.

Lemma reconcileBody_object (w : World) (cluster : Cluster) (m : MachineHealthCheck)
    (s : RState) :
  let '((_, _, m'), _) := reconcileBody w cluster m s in
  mhc_labels m' = Some (<[ClusterLabelName := spec_clusterName (mhc_spec m)]>
                          (match mhc_labels m with Some l => l | None => ∅ end))
  /\ mhc_ownerReferences m'
       = EnsureOwnerRef (mhc_ownerReferences m) (clusterOwnerRef cluster)
  /\ mhc_spec m' = mhc_spec m /\ mhc_namespace m' = mhc_namespace m
  /\ mhc_name m' = mhc_name m.
Proof.
  unfold reconcileBody, bind at 1.
  set (m1 := setLabels m _).
  pose proof (reconcile_object w cluster m1 s) as H.
  destruct (reconcile w cluster m1 s) as [[[res err] m'] s1].
  destruct H as [[Hns [Hn [Hl [_ [Ho Hs]]]]] _].
  destruct err; unfold bind, emit, ret; simpl;
    rewrite Hl, Ho, Hs, Hns, Hn; by repeat split.
Qed.

(** Once the policy and its cluster are fetched, the pass is not paused and
    the patch helper is built, the last thing [Reconcile] does is patch an
    object that carries the cluster-name label set to spec.clusterName
    (the other labels kept) and the owner reference to the cluster, with
    the spec it was fetched with. *)
Theorem Reconcile_patches_labelled_owned (w : World) (req : NamespacedName) (s : RState)
    (m : MachineHealthCheck) (cluster : Cluster) :
  w_getMHC w req = inr m ->
  w_getCluster w {| nn_namespace := mhc_namespace m;
                    nn_name := spec_clusterName (mhc_spec m) |} = inr cluster ->
  IsPaused cluster m = false -> w_newPatchHelper w m = None ->
  exists m' tr,
    trace (snd (Reconcile w req s)) = tr ++ [EvPatch m']
    /\ mhc_labels m' = Some (<[ClusterLabelName := spec_clusterName (mhc_spec m)]>
                              (match mhc_labels m with Some l => l | None => ∅ end))
    /\ In (clusterOwnerRef cluster) (mhc_ownerReferences m')
    /\ mhc_spec m' = mhc_spec m /\ mhc_namespace m' = mhc_namespace m
    /\ mhc_name m' = mhc_name m.
Proof.
  intros Hm Hc Hp Hh. unfold Reconcile. rewrite Hm, Hc, Hp, Hh.
  unfold bind at 1.
  pose proof (reconcileBody_object w cluster m s) as Hb.
  destruct (reconcileBody w cluster m s) as [[[res reterr] m'] s1].
  destruct Hb as [Hl [Ho Hrest]].
  exists m', (trace s1). split.
  - unfold deferredPatch, bind, emit, ret. by destruct (w_patch w m').
  - split; [done |]. split; [| done].
    rewrite Ho. apply EnsureOwnerRef_In.
Qed.

Lemma Reconcile_patches_labelled_owned_witness :
  exists m' tr,
    trace (snd (Reconcile (okWorld [targetHealthy]) req0 s0)) = tr ++ [EvPatch m']
    /\ mhc_labels m' = Some (<[ClusterLabelName := "c1"]> ∅)
    /\ In (clusterOwnerRef cluster0) (mhc_ownerReferences m')
    /\ mhc_spec m' = mhc_spec mhc0 /\ mhc_namespace m' = "default"
    /\ mhc_name m' = "mhc1".
Proof.
  exact (Reconcile_patches_labelled_owned (okWorld [targetHealthy]) req0 s0 mhc0 cluster0
           eq_refl eq_refl eq_refl eq_refl).
Defined.

Lemma reconcile_error_keeps_status_witness :
  let '((_, err, m'), _) := reconcile patchFailsWorld cluster0 mhc0 s0 in
  err = Some (ErrMsg "no kubeconfig") /\ mhc_status m' = mhc_status mhc0.
Proof.
  pose proof (reconcile_error_keeps_status patchFailsWorld cluster0 mhc0 s0) as H.
  destruct (reconcile patchFailsWorld cluster0 mhc0 s0) as [[[res err] m'] s'] eqn:Hr.
  assert (He : err = Some (ErrMsg "no kubeconfig")).
  { revert Hr. vm_compute. intros [= _ <- _ _]. reflexivity. }
  split; [exact He |]. apply H. rewrite He. discriminate.
Defined.

(* ----------------------------------------------------------------- *)
(** ** The result of a pass *)

Definition resultShape (res : Result) : Prop :=
  res = EmptyResult \/ (requeue res = false /\ 0 < requeueAfter res).

Lemma reconcile_result_shape (w : World) (cluster : Cluster) (m : MachineHealthCheck)
    (s : RState) :
  resultShape (fst (fst (fst (reconcile w cluster m s)))).
Proof.
  unfold reconcile, bind, emit, ret.
  destruct (w_newClusterClient w cluster); [by left |].
  destruct (watchClusterNodes w cluster _) as [[e |] s1]; [by left |].
  destruct (w_getTargets w _) as [e | ts]; [by left |].
  simpl. destruct (healthCheckTargets _ _ ts) as [[h rem] next].
  destruct (0 <? minDuration next) eqn:Hpos; [right | by left].
  simpl. split; [done | by apply Z.ltb_lt].
Qed.

(** [Reconcile] never sets the requeue flag: its result is either empty
    or a requeue after a positive duration. *)
Theorem Reconcile_result_shape (w : World) (req : NamespacedName) (s : RState) :
  resultShape (fst (fst (Reconcile w req s))).
Proof.
  unfold Reconcile.
  destruct (w_getMHC w req) as [err | m].
  { destruct (IsNotFound err); by left. }
  destruct (w_getCluster w _) as [err | cluster]; [by left |].
  destruct (IsPaused cluster m); [by left |].
  destruct (w_newPatchHelper w m); [by left |].
  unfold bind at 1, reconcileBody, bind at 1.
  pose proof (reconcile_result_shape w cluster
                (setLabels m (<[ClusterLabelName := spec_clusterName (mhc_spec m)]>
                                (match mhc_labels m with Some l => l | None => ∅ end))) s)
    as Hs.
  destruct (reconcile w cluster _ s) as [[[res err] m'] s1]. simpl in Hs.
  destruct err as [e |]; unfold bind, emit, ret; simpl;
    unfold deferredPatch, bind, emit, ret; simpl.
  - destruct (w_patch w m'); by left.
  - by destruct (w_patch w m').
Qed.

(* ----------------------------------------------------------------- *)
(** ** Watch before target resolution *)

Lemma watchClusterNodes_trace (w : World) (cluster : Cluster) (s : RState) :
  let key := clusterKey cluster in
  exists tr, trace (snd (watchClusterNodes w cluster s)) = trace s ++ tr
    /\ Forall (fun e => e = EvInformerRun key \/ e = EvControllerWatch key) tr.
Proof.
  intros key. unfold_watch.
  destruct (registered _ _); simpl; [exists []; by rewrite app_nil_r |].
  destruct (w_restConfig w cluster); simpl; [exists []; by rewrite app_nil_r |].
  destruct (w_newForConfig w cluster); simpl; [exists []; by rewrite app_nil_r |].
  destruct (w_controllerWatch w _); simpl.
  - exists [EvInformerRun key]. split; [done |]. constructor; [by left | constructor].
  - exists [EvInformerRun key; EvControllerWatch key].
    split; [by rewrite <- app_assoc |].
    constructor; [by left | constructor; [by right | constructor]].
Qed.

Lemma watchClusterNodes_ok_registered (w : World) (cluster : Cluster) (s : RState) :
  let '(err, s') := watchClusterNodes w cluster s in
  err = None -> registered (clusterKey cluster) (clusterNodeInformers s') = true.
Proof.
  destruct (watchClusterNodes w cluster s) as [err s'] eqn:Hw. revert Hw. unfold_watch.
  destruct (registered _ _) eqn:Hr; [by intros [= <- <-] |].
  destruct (w_restConfig w cluster); [by intros [= <- <-] |].
  destruct (w_newForConfig w cluster); [by intros [= <- <-] |].
  destruct (w_controllerWatch w _); [by intros [= <- <-] |].
  intros [= <- <-] _. apply registered_insert.
Qed.

(** [reconcile] resolves the targets only after the cluster's node watch
    is registered: when the run resolved the targets, the watch registry
    holds the cluster's key at the end of the run. *)
Theorem reconcile_targets_after_watch (w : World) (cluster : Cluster)
    (m : MachineHealthCheck) (s : RState) :
  let '(_, s') := reconcile w cluster m s in
  (exists tr, trace s' = trace s ++ tr /\ In (EvGetTargets (mhc_name m)) tr) ->
  registered (clusterKey cluster) (clusterNodeInformers s') = true.
Proof.
  destruct (reconcile w cluster m s) as [r s'] eqn:Hr. revert Hr.
  unfold reconcile, bind, emit, ret.
  set (sa := {| clusterNodeInformers := clusterNodeInformers s;
                trace := trace s ++ [EvBuildClusterClient (c_name cluster)] |}).
  destruct (w_newClusterClient w cluster).
  { intros [= _ <-] [tr [Htr Hin]]. simpl in Htr.
    apply app_inv_head in Htr. subst tr. destruct Hin as [Hin | []]. discriminate. }
  pose proof (watchClusterNodes_trace w cluster sa) as [tr1 [Htr1 Hall]].
  pose proof (watchClusterNodes_ok_registered w cluster sa) as Hreg.
  destruct (watchClusterNodes w cluster sa) as [[e |] s1]; simpl in Htr1.
  { intros [= _ <-] [tr [Htr Hin]].
    rewrite Htr1 in Htr. simpl in Htr. rewrite <- app_assoc in Htr.
    apply app_inv_head in Htr. subst tr. destruct Hin as [Hin | Hin]; [discriminate |].
    rewrite List.Forall_forall in Hall. destruct (Hall _ Hin); discriminate. }
  specialize (Hreg eq_refl).
  destruct (w_getTargets w _) as [e | ts].
  { by intros [= _ <-] _. }
  simpl. destruct (healthCheckTargets _ _ ts) as [[h rem] next].
  destruct (0 <? minDuration next); by intros [= _ <-] _.
Qed.

Lemma reconcile_targets_after_watch_witness :
  registered (clusterKey cluster0)
    (clusterNodeInformers (snd (reconcile (okWorld [targetHealthy]) cluster0 mhc0 s0))) = true.
Proof.
  pose proof (reconcile_targets_after_watch (okWorld [targetHealthy]) cluster0 mhc0 s0) as H.
  destruct (reconcile (okWorld [targetHealthy]) cluster0 mhc0 s0) as [r s'] eqn:Hr.
  simpl. apply H.
  exists [EvBuildClusterClient "c1"; EvInformerRun (clusterKey cluster0);
          EvControllerWatch (clusterKey cluster0); EvGetTargets "mhc1"].
  revert Hr. vm_compute. intros [= _ <-]. split; [reflexivity |].
  right. right. right. left. reflexivity.
Defined.

(* ----------------------------------------------------------------- *)
(** ** The watch registry only grows *)

Definition lookupReg (k : NamespacedName) (r : option (gmap NamespacedName Informer))
    : option Informer :=
  match r with Some reg => reg !! k | None => None end.

Definition Grows {A} (c : M A) : Prop :=
  forall s k i, lookupReg k (clusterNodeInformers s) = Some i ->
                lookupReg k (clusterNodeInformers (snd (c s))) = Some i.

Lemma Grows_ret {A} (a : A) : Grows (ret a).
Proof. by intros s k i H. Qed.

Lemma Grows_bind {A B} (c : M A) (f : A -> M B) :
  Grows c -> (forall a, Grows (f a)) -> Grows (bind c f).
Proof.
  intros Hc Hf s k i H. unfold bind.
  specialize (Hc s k i H). destruct (c s) as [a s1]. by apply Hf.
Qed.

Lemma Grows_emit (e : Event) : Grows (emit e).
Proof. by intros s k i H. Qed.

Lemma Grows_watchClusterNodes w cluster : Grows (watchClusterNodes w cluster).
Proof.
  intros s k i H. unfold_watch.
  destruct (registered _ _) eqn:Hr; [done |].
  destruct (w_restConfig w cluster); [done |].
  destruct (w_newForConfig w cluster); [done |].
  destruct (w_controllerWatch w _); [done |]. simpl.
  destruct (clusterNodeInformers s) as [reg |]; [| done]. simpl in H |- *.
  rewrite lookup_insert_ne; [done |].
  intros Hk. rewrite <- Hk in H. unfold registered in Hr. rewrite H in Hr.
  rewrite bool_decide_eq_true_2 in Hr; [discriminate | by eexists].
Qed.

Create HintDb grows.
#[local] Hint Resolve Grows_ret Grows_emit Grows_watchClusterNodes : grows.

Ltac grows :=
  repeat match goal with
  | |- Grows (bind _ _) => apply Grows_bind; [| intros ?]
  | |- Grows (match ?x with _ => _ end) => destruct x
  | |- Grows (if ?b then _ else _) => destruct b
  | |- Grows _ => solve [eauto with grows]
  end.

Lemma Grows_reconcile w cluster m : Grows (reconcile w cluster m).
Proof. unfold reconcile. grows. Qed.
#[local] Hint Resolve Grows_reconcile : grows.

Lemma Grows_reconcileBody w cluster m : Grows (reconcileBody w cluster m).
Proof. unfold reconcileBody. grows. Qed.
#[local] Hint Resolve Grows_reconcileBody : grows.

Lemma Grows_deferredPatch w m res reterr : Grows (deferredPatch w m res reterr).
Proof. unfold deferredPatch. grows. Qed.
#[local] Hint Resolve Grows_deferredPatch : grows.

(** No path of [Reconcile] removes or replaces a registered cluster watch:
    every informer in the registry before a pass is still there, under the
    same key, after it. *)
Theorem Reconcile_registry_grows (w : World) (req : NamespacedName) (s : RState)
    (k : NamespacedName) (i : Informer) :
  lookupReg k (clusterNodeInformers s) = Some i ->
  lookupReg k (clusterNodeInformers (snd (Reconcile w req s))) = Some i.
Proof.
  revert s k i. change (Grows (Reconcile w req)). unfold Reconcile. grows.
Qed.

Lemma Reconcile_registry_grows_witness :
  lookupReg {| nn_namespace := "c2"; nn_name := "c2" |}
    (clusterNodeInformers (snd (Reconcile (okWorld [targetHealthy]) req0 sReg)))
  = Some (NodeInformer {| nn_namespace := "c2"; nn_name := "c2" |}).
Proof.
  apply (Reconcile_registry_grows (okWorld [targetHealthy]) req0 sReg). reflexivity.
Defined.

(* ----------------------------------------------------------------- *)
(** ** A failed controller Watch *)

Lemma watchClusterNodes_watch_error (w : World) (cluster : Cluster) (s : RState)
    (e : error) :
  registered (clusterKey cluster) (clusterNodeInformers s) = false ->
  w_restConfig w cluster = None -> w_newForConfig w cluster = None ->
  w_controllerWatch w (clusterKey cluster) = Some e ->
  watchClusterNodes w cluster s
  = (Some (ErrWrap "error watching nodes on target cluster" e),
     {| clusterNodeInformers := clusterNodeInformers s;
        trace := trace s ++ [EvInformerRun (clusterKey cluster)] |}).
Proof. intros Hr Hc Hf Hw. unfold_watch. by rewrite Hr, Hc, Hf, Hw. Qed.

(** When the controller's Watch fails, the informer was already started
    but is not registered: a retry starts another informer for the same
    cluster, and the registry still lacks it. *)
Theorem watchClusterNodes_watch_error_retry (w : World) (cluster : Cluster) (s : RState)
    (e : error) :
  let key := clusterKey cluster in
  registered key (clusterNodeInformers s) = false ->
  w_restConfig w cluster = None -> w_newForConfig w cluster = None ->
  w_controllerWatch w key = Some e ->
  let '(err1, s1) := watchClusterNodes w cluster s in
  let '(err2, s2) := watchClusterNodes w cluster s1 in
  err1 = Some (ErrWrap "error watching nodes on target cluster" e) /\ err2 = err1
  /\ clusterNodeInformers s2 = clusterNodeInformers s
  /\ informersStarted key (trace s2) = (informersStarted key (trace s) + 2)%nat.
Proof.
  intros key Hr Hc Hf Hw.
  rewrite (watchClusterNodes_watch_error w cluster s e Hr Hc Hf Hw).
  rewrite (watchClusterNodes_watch_error w cluster
             {| clusterNodeInformers := clusterNodeInformers s;
                trace := trace s ++ [EvInformerRun (clusterKey cluster)] |}
             e Hr Hc Hf Hw). simpl.
  split; [done | split; [done | split; [done |]]].
  rewrite <- app_assoc, informersStarted_app. simpl.
  subst key.
  rewrite (informersStarted_app _ [EvInformerRun (clusterKey cluster)]
             [EvInformerRun (clusterKey cluster)]).
  rewrite informersStarted_run. lia.
Qed.

Lemma watchClusterNodes_watch_error_retry_witness :
  let key := clusterKey cluster0 in
  let '(err1, s1) := watchClusterNodes watchFailsWorld cluster0 s0 in
  let '(err2, s2) := watchClusterNodes watchFailsWorld cluster0 s1 in
  err1 = Some (ErrWrap "error watching nodes on target cluster"
                 (ErrMsg "controller not started")) /\ err2 = err1
  /\ clusterNodeInformers s2 = clusterNodeInformers s0
  /\ informersStarted key (trace s2) = (informersStarted key (trace s0) + 2)%nat.
Proof.
  exact (watchClusterNodes_watch_error_retry watchFailsWorld cluster0 s0
           (ErrMsg "controller not started") eq_refl eq_refl eq_refl eq_refl).
Defined.
